(** * Compound wallet risk scorer: a shallow embedding of
      [compound_risk_scorer.py] and of the decisions of [run_analysis.py],
      and the properties of the scoring engine.

    Conventions of the embedding.

    - Python [int] is [Z].  Python [float] is [pyfloat]: a rational, or one
      of the three IEEE special values.  On [pyfloat] the arithmetic on
      finite floats is exact: the rounding of binary64 is idealised away.
      The special values follow the IEEE rules, because they decide control
      flow: comparisons with NaN are false and [round(nan)] raises.  The
      range of binary64 appears where it raises an exception (the
      conversion of a large int to float).
    - Two places depend on the rounding.  The integer that the weighted
      sum rounds to can depend on the last bit of the sum: next to the
      exact aggregator of [score_transactions], the module [Float64] has
      the aggregator on the doubles of the machine, and the equation of the
      composite score is proved of that one.  The volatility calculator
      keeps an amount when [value / 1e18 > 0]: there the quotient
      underflows to zero as in binary64 ([underflow]).
    - A transaction is the dict the provider returns, with string fields.
      The code reads the numeric fields only through [float(...)] and
      [int(...)], so the record carries the outcome of that conversion:
      [None] is the [ValueError] that the calculators catch.
    - An exception that leaves a function is a [Raise] result.
    - The two fetch methods talk to a remote service.  They are parameters
      of the batch functions and thread a state of the outside world. *)

From Stdlib Require Import ZArith QArith Qround Qminmax List String Ascii Bool Lia Lqa.
From Stdlib Require ListSet Permutation Sorted PrimFloat FloatOps SpecFloat.
#[local] Set Warnings "-inexact-float".
Import ListNotations.

Local Open Scope Z_scope.

(** ** Strings *)

Module PyStr.

(** [str.lower()], on the ASCII letters. *)
Definition lower_ascii (c : ascii) : ascii :=
  let n := nat_of_ascii c in
  if ((65 <=? n) && (n <=? 90))%nat then ascii_of_nat (n + 32) else c.

Fixpoint lower (s : string) : string :=
  match s with
  | EmptyString => EmptyString
  | String c r => String (lower_ascii c) (lower r)
  end.

(** [needle in hay]. *)
Fixpoint contains (needle hay : string) : bool :=
  match hay with
  | EmptyString => String.prefix needle hay
  | String _ r => String.prefix needle hay || contains needle r
  end.

(** [any(k in s for k in keys)]. *)
Definition contains_any (keys : list string) (s : string) : bool :=
  existsb (fun k => contains k s) keys.

(** Truth value of a string: non-empty. *)
Definition truthy (s : string) : bool :=
  match s with EmptyString => false | String _ _ => true end.

End PyStr.

(** ** Numbers *)

Module PyNum.

Inductive pyfloat : Type :=
| Fin (q : Q)
| PInf
| NInf
| NaN.

Definition Qltb (x y : Q) : bool := (Qnum x * QDen y <? Qnum y * QDen x)%Z.

(** Sign of a rational, read off its numerator. *)
Definition Qsign (q : Q) : comparison := (Qnum q ?= 0)%Z.

Definition fneg (x : pyfloat) : pyfloat :=
  match x with
  | Fin q => Fin (- q)
  | PInf => NInf
  | NInf => PInf
  | NaN => NaN
  end.

Definition fadd (x y : pyfloat) : pyfloat :=
  match x, y with
  | NaN, _ | _, NaN => NaN
  | Fin a, Fin b => Fin (a + b)
  | PInf, NInf | NInf, PInf => NaN
  | PInf, _ | _, PInf => PInf
  | NInf, _ | _, NInf => NInf
  end.

Definition fsub (x y : pyfloat) : pyfloat := fadd x (fneg y).

(** An infinity of the sign [pos] scaled by a finite factor. *)
Definition inf_times (pos : bool) (q : Q) : pyfloat :=
  match Qsign q with
  | Eq => NaN
  | Gt => if pos then PInf else NInf
  | Lt => if pos then NInf else PInf
  end.

Definition fmul (x y : pyfloat) : pyfloat :=
  match x, y with
  | NaN, _ | _, NaN => NaN
  | Fin a, Fin b => Fin (a * b)
  | PInf, Fin b | Fin b, PInf => inf_times true b
  | NInf, Fin b | Fin b, NInf => inf_times false b
  | PInf, PInf | NInf, NInf => PInf
  | PInf, NInf | NInf, PInf => NInf
  end.

(** Division as numpy performs it (no exception; a zero divisor gives an
    infinity or NaN).  Python's own [float / x] raises on a zero divisor:
    the callers that divide Python floats test for it first. *)
Definition fdiv (x y : pyfloat) : pyfloat :=
  match x, y with
  | NaN, _ | _, NaN => NaN
  | Fin a, Fin b =>
      match Qsign b with
      | Eq => inf_times true a
      | _ => Fin (a / b)
      end
  | Fin _, _ => Fin 0
  | PInf, Fin b => match Qsign b with Lt => NInf | _ => PInf end
  | NInf, Fin b => match Qsign b with Lt => PInf | _ => NInf end
  | _, _ => NaN
  end.

(** Underflow.  A finite result of a size of at most 2^-1075, the half of
    the least positive double, is zero in binary64: the tie at 2^-1075 goes
    to the even neighbour, which is 0.  A result beyond that is kept exact.
    The quotient whose sign decides a branch passes through [underflow]. *)
Definition underflow (x : pyfloat) : pyfloat :=
  match x with
  | Fin q =>
      if Qltb (1 # 2 ^ 1075) q || Qltb q (- (1 # 2 ^ 1075)) then x else Fin 0
  | _ => x
  end.

(** [x < y]; every comparison with NaN is false. *)
Definition flt (x y : pyfloat) : bool :=
  match x, y with
  | NaN, _ | _, NaN => false
  | Fin a, Fin b => Qltb a b
  | NInf, NInf | PInf, _ => false
  | NInf, _ => true
  | Fin _, PInf => true
  | Fin _, NInf => false
  end.

Definition fgt (x y : pyfloat) : bool := flt y x.

(** The builtin [min(a, b)]: [b] when [b < a], else [a]. *)
Definition py_min (a b : pyfloat) : pyfloat := if flt b a then b else a.
Definition py_minQ (a b : Q) : Q := if Qltb b a then b else a.
Definition py_minZ (a b : Z) : Z := if b <? a then b else a.
(** The builtin [max(a, b)]: [b] when [b > a], else [a]. *)
Definition py_maxZ (a b : Z) : Z := if b >? a then b else a.

(** Square root of a non-negative rational, truncated to 2^-64; [np.sqrt]
    is likewise an approximation of the real square root. *)
Definition Qsqrt (q : Q) : Q :=
  Z.sqrt (Qfloor (q * inject_Z (2 ^ 128))) # (2 ^ 64).

Definition fsqrt (x : pyfloat) : pyfloat :=
  match x with
  | Fin q => if Qltb q 0 then NaN else Fin (Qsqrt q)
  | PInf => PInf
  | NInf | NaN => NaN
  end.

(** [round(x)] of a finite float: to the nearest integer, ties to even. *)
Definition round_half_even (q : Q) : Z :=
  let f := Qfloor q in
  let r := (q - inject_Z f)%Q in
  match (r ?= 1 # 2)%Q with
  | Lt => f
  | Gt => f + 1
  | Eq => if Z.even f then f else f + 1
  end.

(** [round(x, 1)]: one decimal, ties to even; NaN and the infinities are
    returned unchanged. *)
Definition round1 (x : pyfloat) : pyfloat :=
  match x with
  | Fin q => Fin (inject_Z (round_half_even (q * 10)) / 10)
  | _ => x
  end.

Definition in_range (x : pyfloat) : Prop :=
  match x with
  | Fin q => (0 <= q <= 1000)%Q
  | _ => False
  end.

End PyNum.
Export PyNum.

(** ** Exceptions *)

Inductive exn : Type :=
| ValueError
| OverflowError
| ZeroDivisionError.

Inductive res (A : Type) : Type :=
| Ok (a : A)
| Raise (e : exn).
Arguments Ok {A} a.
Arguments Raise {A} e.

Definition bind {A B} (m : res A) (k : A -> res B) : res B :=
  match m with
  | Ok a => k a
  | Raise e => Raise e
  end.

Notation "x <- m ;; k" := (bind m (fun x => k))
  (at level 61, m at next level, right associativity).

(** ** Transactions *)

(** One record of either provider collection.  [value], [timeStamp] and
    [tokenDecimal] hold what [float(tx.get('value', 0))],
    [int(tx.get('timeStamp', 0))] and [int(tx.get('tokenDecimal', 18))]
    evaluate to: [None] when the conversion raises [ValueError] (as for
    'abc' or the empty string), [Some PInf] for 'inf' or '1e400',
    [Some NaN] for 'nan'.  The string fields hold the value of
    [tx.get(key, default)]. *)
Record Tx : Type := mkTx {
  value : option pyfloat;
  timeStamp : option Z;
  functionName : string;
  isError : string;
  contractAddress : string;
  tokenSymbol : string;
  tokenDecimal : option Z
}.

(** [l[-n:]] *)
Definition last_n {A} (n : nat) (l : list A) : list A :=
  skipn (List.length l - n) l.

Definition len {A} (l : list A) : Z := Z.of_nat (List.length l).

(** [not l]: a list is false when it is empty. *)
Definition py_not {A} (l : list A) : bool :=
  match l with [] => true | _ :: _ => false end.

Definition wei : pyfloat := Fin (inject_Z (10 ^ 18)).

(** ** Liquidation risk (lines 139-184) *)

Record liq_state : Type := mkLiq {
  supply_count : Z;
  borrow_count : Z;
  total_value : pyfloat
}.

(** One iteration of the loop over the recent transactions; a [ValueError]
    of the conversion skips the record. *)
Definition liquidation_step (st : liq_state) (tx : Tx) : liq_state :=
  match value tx with
  | None => st
  | Some v =>
      let value := fdiv v wei in
      let total := fadd (total_value st) value in
      let func_name := PyStr.lower (functionName tx) in
      if PyStr.contains "mint" func_name || PyStr.contains "supply" func_name
      then mkLiq (supply_count st + 1) (borrow_count st) total
      else if PyStr.contains "borrow" func_name
      then mkLiq (supply_count st) (borrow_count st + 1) total
      else mkLiq (supply_count st) (borrow_count st) total
  end.

Definition calculate_liquidation_risk (transactions token_transactions : list Tx) : Q :=
  if py_not transactions && py_not token_transactions then 500%Q
  else
    let all_txs := transactions ++ token_transactions in
    let st := fold_left liquidation_step (last_n 50 all_txs)
                        (mkLiq 0 0 (Fin 0)) in
    let utilization_ratio :=
      if supply_count st + borrow_count st =? 0 then (1 # 2)%Q
      else (inject_Z (borrow_count st)
            / inject_Z (supply_count st + borrow_count st + 1))%Q in
    let utilization_score := py_minQ (utilization_ratio * 1000)%Q 1000%Q in
    let frequency_penalty :=
      if len all_txs >? 100 then py_minZ ((len all_txs - 100) * 2) 200 else 0 in
    py_minQ (utilization_score + inject_Z frequency_penalty)%Q 1000%Q.


(** ** Volatility risk (lines 186-230) *)

(** [np.mean], [np.std], [np.diff] and [sorted], on exact numbers.  The
    sums, the squares and the root are not rounded, and a square beyond the
    range of binary64 stays finite where the machine has an infinity (the
    score is then the cap, 1000). *)
Definition fsum (l : list pyfloat) : pyfloat := fold_left fadd l (Fin 0).

Definition np_mean (l : list pyfloat) : pyfloat :=
  fdiv (fsum l) (Fin (inject_Z (len l))).

Definition np_std (l : list pyfloat) : pyfloat :=
  let m := np_mean l in
  fsqrt (np_mean (map (fun x => let d := fsub x m in fmul d d) l)).

Fixpoint np_diff (l : list Z) : list Z :=
  match l with
  | a :: (b :: _) as r => (b - a) :: np_diff r
  | _ => []
  end.

Fixpoint insert_sorted (x : Z) (l : list Z) : list Z :=
  match l with
  | [] => [x]
  | y :: r => if x <=? y then x :: l else y :: insert_sorted x r
  end.

Definition sorted (l : list Z) : list Z := fold_right insert_sorted [] l.

Definition of_ints (l : list Z) : list pyfloat := map (fun z => Fin (inject_Z z)) l.

(** One iteration of the collecting loop: a record counts when both
    conversions succeed and the converted value is positive. *)
Definition volatility_step (acc : list pyfloat * list Z) (tx : Tx)
  : list pyfloat * list Z :=
  match value tx with
  | None => acc
  | Some v =>
      let value := underflow (fdiv v wei) in
      match timeStamp tx with
      | None => acc
      | Some timestamp =>
          if fgt value (Fin 0)
          then (fst acc ++ [value], snd acc ++ [timestamp])
          else acc
      end
  end.

Definition calculate_volatility_risk (transactions : list Tx) : pyfloat :=
  if py_not transactions then Fin 300
  else
    let '(amounts, timestamps) := fold_left volatility_step transactions ([], []) in
    if len amounts <? 2 then Fin 400
    else
      let cv_amounts :=
        if fgt (np_mean amounts) (Fin 0)
        then fdiv (np_std amounts) (np_mean amounts)
        else Fin 1 in
      let cv_timing :=
        if len timestamps >? 1 then
          let time_diffs := of_ints (np_diff (sorted timestamps)) in
          if fgt (np_mean time_diffs) (Fin 0)
          then fdiv (np_std time_diffs) (np_mean time_diffs)
          else Fin 0
        else Fin 0 in
      py_min (fadd (fmul cv_amounts (Fin 300)) (fmul cv_timing (Fin (1 # 100))))
             (Fin 1000).

(** ** Concentration risk (lines 232-269) *)

(** A loop whose body may raise. *)
Fixpoint for_each {S A} (body : S -> A -> res S) (l : list A) (st : S) : res S :=
  match l with
  | [] => Ok st
  | x :: r => st' <- body st x ;; for_each body r st'
  end.

(** [x / (10 ** d)] for a float [x] and an int [d].  For [d >= 0] the power
    is an int which the division converts to float: from [10 ** 309] on it
    is out of the float range and the conversion raises [OverflowError]
    (an exponent so large that the power cannot even be built fails with
    [MemoryError] instead, which the [except] clause does not catch either).
    For [d < 0] the power is the float [10.0 ** d], which is [0.0] from
    [10 ** -324] on, and the division raises [ZeroDivisionError]. *)
Definition div_pow10 (x : pyfloat) (d : Z) : res pyfloat :=
  if 308 <? d then Raise OverflowError
  else if d <? -323 then Raise ZeroDivisionError
  else Ok (fdiv x (Fin (Qpower 10 d))).

(** [token_values], a dict from symbol to accumulated value. *)
Fixpoint dict_get (k : string) (d : list (string * pyfloat)) : option pyfloat :=
  match d with
  | [] => None
  | (k', v) :: r => if String.eqb k k' then Some v else dict_get k r
  end.

Fixpoint dict_set (k : string) (v : pyfloat) (d : list (string * pyfloat))
  : list (string * pyfloat) :=
  match d with
  | [] => [(k, v)]
  | (k', v') :: r => if String.eqb k k' then (k, v) :: r else (k', v') :: dict_set k v r
  end.

Record conc_state : Type := mkConc {
  unique_tokens : list string;
  token_values : list (string * pyfloat)
}.

(** One iteration: the address joins the set first; the value tracking
    follows, where [ValueError] skips the rest of the iteration and any
    other exception leaves the function. *)
Definition concentration_step (st : conc_state) (tx : Tx) : res conc_state :=
  let token_addr := PyStr.lower (contractAddress tx) in
  let token_symbol := tokenSymbol tx in
  let unique := ListSet.set_add string_dec token_addr (unique_tokens st) in
  match tokenDecimal tx with
  | None => Ok (mkConc unique (token_values st))
  | Some decimals =>
      match value tx with
      | None => Ok (mkConc unique (token_values st))
      | Some v =>
          value <- div_pow10 v decimals ;;
          let values :=
            match dict_get token_symbol (token_values st) with
            | None => dict_set token_symbol (Fin 0) (token_values st)
            | Some _ => token_values st
            end in
          let old := match dict_get token_symbol values with
                     | Some o => o
                     | None => Fin 0
                     end in
          Ok (mkConc unique (dict_set token_symbol (fadd old value) values))
      end
  end.

(** The final if-chain on the number of unique tokens. *)
Definition concentration_score (num_tokens : Z) : Z :=
  if num_tokens =? 0 then 800
  else if num_tokens =? 1 then 700
  else if num_tokens <=? 3 then 400
  else 200.

Definition calculate_concentration_risk (token_transactions : list Tx) : res Z :=
  if py_not token_transactions then Ok 600
  else
    st <- for_each concentration_step token_transactions (mkConc [] []) ;;
    Ok (concentration_score (len (unique_tokens st))).

(** ** Leverage risk (lines 271-298) *)

Definition risky_functions : list string := ["borrow"; "repay"; "liquidate"; "redeem"]%string.

Record lev_state : Type := mkLev {
  leverage_indicators : Z;
  total_functions : Z
}.

Definition leverage_step (st : lev_state) (tx : Tx) : lev_state :=
  let func_name := PyStr.lower (functionName tx) in
  if PyStr.truthy func_name then
    let total := total_functions st + 1 in
    if PyStr.contains_any risky_functions func_name
    then mkLev (leverage_indicators st + 1) total
    else mkLev (leverage_indicators st) total
  else st.

Definition calculate_leverage_risk (transactions : list Tx) : Q :=
  if py_not transactions then 300%Q
  else
    let st := fold_left leverage_step transactions (mkLev 0 0) in
    if total_functions st =? 0 then 400%Q
    else
      let leverage_ratio :=
        (inject_Z (leverage_indicators st) / inject_Z (total_functions st))%Q in
      py_minQ (leverage_ratio * 800)%Q 1000%Q.

(** ** Behavioral risk (lines 300-353) *)

Definition timestamp_step (timestamps : list Z) (tx : Tx) : list Z :=
  match timeStamp tx with
  | Some timestamp => if timestamp >? 0 then timestamps ++ [timestamp] else timestamps
  | None => timestamps
  end.

(** [for i in range(1, len(timestamps))]: gaps under a minute. *)
Definition rapid_step (timestamps : list Z) (count : Z) (i : nat) : Z :=
  if nth i timestamps 0 - nth (i - 1) timestamps 0 <? 60 then count + 1 else count.

Definition rapid_tx_count (timestamps : list Z) : Z :=
  fold_left (rapid_step timestamps) (seq 1 (List.length timestamps - 1)) 0.

Definition failed_count (transactions : list Tx) : Z :=
  fold_left (fun n tx => if String.eqb (isError tx) "1" then n + 1 else n)
            transactions 0.

Definition large_step (count : Z) (tx : Tx) : Z :=
  match value tx with
  | None => count
  | Some v => if fgt (fdiv v wei) (Fin 1000) then count + 1 else count
  end.

Definition large_tx_count (transactions : list Tx) : Z :=
  fold_left large_step transactions 0.

Definition calculate_behavioral_risk (transactions token_transactions : list Tx) : Z :=
  let all_txs := transactions ++ token_transactions in
  if py_not all_txs then 400
  else
    let risk_flags := 0 in
    let timestamps := sorted (fold_left timestamp_step all_txs []) in
    let risk_flags :=
      if rapid_tx_count timestamps >? 10 then risk_flags + 1 else risk_flags in
    let risk_flags :=
      if (len transactions >? 0)
         && Qltb (inject_Z (len transactions) * (1 # 10))
                 (inject_Z (failed_count transactions))
      then risk_flags + 1 else risk_flags in
    let risk_flags :=
      if large_tx_count transactions >? 5 then risk_flags + 1 else risk_flags in
    py_minZ (risk_flags * 200) 1000.

(** ** Weighted aggregation (lines 35-41 and 368-399) *)

Record risk_weights_t : Type := mkWeights {
  w_liquidation_risk : Q;
  w_volatility_risk : Q;
  w_concentration_risk : Q;
  w_leverage_risk : Q;
  w_behavioral_risk : Q
}.

Definition risk_weights : risk_weights_t :=
  mkWeights (30 # 100) (25 # 100) (20 # 100) (15 # 100) (10 # 100).

(** [round(x)] without digits: NaN and the infinities have no integer. *)
Definition py_round (x : pyfloat) : res Z :=
  match x with
  | Fin q => Ok (round_half_even q)
  | NaN => Raise ValueError
  | PInf | NInf => Raise OverflowError
  end.

Definition weighted_sum (liquidation_risk volatility_risk concentration_risk
                         leverage_risk behavioral_risk : pyfloat) : pyfloat :=
  fadd (fadd (fadd (fadd
    (fmul liquidation_risk (Fin (w_liquidation_risk risk_weights)))
    (fmul volatility_risk (Fin (w_volatility_risk risk_weights))))
    (fmul concentration_risk (Fin (w_concentration_risk risk_weights))))
    (fmul leverage_risk (Fin (w_leverage_risk risk_weights))))
    (fmul behavioral_risk (Fin (w_behavioral_risk risk_weights))).

(** [max(0, min(1000, round(final_score)))] *)
Definition final_score_of (liquidation_risk volatility_risk concentration_risk
                           leverage_risk behavioral_risk : pyfloat) : res Z :=
  r <- py_round (weighted_sum liquidation_risk volatility_risk concentration_risk
                              leverage_risk behavioral_risk) ;;
  Ok (py_maxZ 0 (py_minZ 1000 r)).

Record Breakdown : Type := mkBreakdown {
  bd_liquidation_risk : pyfloat;
  bd_volatility_risk : pyfloat;
  bd_concentration_risk : pyfloat;
  bd_leverage_risk : pyfloat;
  bd_behavioral_risk : pyfloat;
  bd_final_score : Z;
  bd_tx_count : Z;
  bd_token_tx_count : Z
}.

Definition of_int (z : Z) : pyfloat := Fin (inject_Z z).

(** The part of [calculate_wallet_risk_score] after the two fetches: the
    five calculators, the weighted score and the breakdown. *)
Definition score_transactions (transactions token_transactions : list Tx)
  : res (Z * Breakdown) :=
  let liquidation_risk := Fin (calculate_liquidation_risk transactions token_transactions) in
  let volatility_risk := calculate_volatility_risk transactions in
  concentration <- calculate_concentration_risk token_transactions ;;
  let concentration_risk := of_int concentration in
  let leverage_risk := Fin (calculate_leverage_risk transactions) in
  let behavioral_risk :=
    of_int (calculate_behavioral_risk transactions token_transactions) in
  final_score <- final_score_of liquidation_risk volatility_risk concentration_risk
                                leverage_risk behavioral_risk ;;
  Ok (final_score,
      mkBreakdown (round1 liquidation_risk) (round1 volatility_risk)
                  (round1 concentration_risk) (round1 leverage_risk)
                  (round1 behavioral_risk) final_score
                  (len transactions) (len token_transactions)).

(** ** The aggregator in binary64 (lines 35-41 and 376-385)

    The weights are the doubles that the literals 0.30, 0.25, 0.20, 0.15 and
    0.10 denote.  The products and the sums are those of IEEE binary64, from
    left to right as Python evaluates the expression.  [to_pyfloat] gives
    the value of a double: the rational it stands for, in lowest terms, or
    the special value.  [round] is exact on that rational, as Python's
    is. *)

Module Float64.
Import PrimFloat.

Record risk_weights_t : Type := mkWeights {
  w_liquidation_risk : float;
  w_volatility_risk : float;
  w_concentration_risk : float;
  w_leverage_risk : float;
  w_behavioral_risk : float
}.

Definition risk_weights : risk_weights_t :=
  mkWeights 0.30 0.25 0.20 0.15 0.10.


Definition weighted_sum (liquidation_risk volatility_risk concentration_risk
                         leverage_risk behavioral_risk : float) : float :=
  liquidation_risk * w_liquidation_risk risk_weights
  + volatility_risk * w_volatility_risk risk_weights
  + concentration_risk * w_concentration_risk risk_weights
  + leverage_risk * w_leverage_risk risk_weights
  + behavioral_risk * w_behavioral_risk risk_weights.

Definition to_pyfloat (x : float) : pyfloat :=
  match FloatOps.Prim2SF x with
  | SpecFloat.S754_zero _ => Fin 0
  | SpecFloat.S754_infinity false => PInf
  | SpecFloat.S754_infinity true => NInf
  | SpecFloat.S754_nan => NaN
  | SpecFloat.S754_finite s m e =>
      let a := (inject_Z (Zpos m) * Qpower 2 e)%Q in
      Fin (Qred (if s then (- a)%Q else a))
  end.

(** The double of a Python int between 0 and 2^63. *)
Definition of_int (z : Z) : float := of_uint63 (Uint63Axioms.of_Z z).

(** [max(0, min(1000, round(final_score)))] *)
Definition final_score_of (liquidation_risk volatility_risk concentration_risk
                           leverage_risk behavioral_risk : float) : res Z :=
  r <- py_round (to_pyfloat (weighted_sum liquidation_risk volatility_risk
                               concentration_risk leverage_risk behavioral_risk)) ;;
  Ok (py_maxZ 0 (py_minZ 1000 r)).

End Float64.

(** ** Batch orchestration (lines 355-366 and 401-457) *)

Record WalletResult : Type := mkResult {
  wallet_id : string;
  score : Z;
  liquidation_risk : pyfloat;
  volatility_risk : pyfloat;
  concentration_risk : pyfloat;
  leverage_risk : pyfloat;
  behavioral_risk : pyfloat;
  tx_count : Z;
  token_tx_count : Z
}.

(** The record appended in the [except] branch. *)
Definition default_result (wallet : string) : WalletResult :=
  mkResult wallet 500 (Fin 500) (Fin 500) (Fin 500) (Fin 500) (Fin 500) 0 0.

(** The record appended after a successful scoring. *)
Definition result_of (wallet : string) (sb : Z * Breakdown) : WalletResult :=
  let (score, breakdown) := sb in
  mkResult wallet score
           (bd_liquidation_risk breakdown) (bd_volatility_risk breakdown)
           (bd_concentration_risk breakdown) (bd_leverage_risk breakdown)
           (bd_behavioral_risk breakdown)
           (bd_tx_count breakdown) (bd_token_tx_count breakdown).

Section Batch.

(** The transaction history provider.  Each fetch is a request to a remote
    service: it reads and advances a state of the outside world.  Both fetch
    methods catch every exception themselves and return the empty list then,
    so they always return. *)
Variable World : Type.
Variable get_wallet_transactions : string -> World -> list Tx * World.
Variable get_wallet_token_transactions : string -> World -> list Tx * World.

Definition calculate_wallet_risk_score (wallet_address : string) (w : World)
  : res (Z * Breakdown) * World :=
  let (transactions, w1) := get_wallet_transactions wallet_address w in
  let (token_transactions, w2) := get_wallet_token_transactions wallet_address w1 in
  (score_transactions transactions token_transactions, w2).

(** The body of the loop over the wallets, with its [try]/[except]. *)
Definition score_wallet_step (st : list WalletResult * World) (wallet : string)
  : list WalletResult * World :=
  let (results, w) := st in
  let (outcome, w') := calculate_wallet_risk_score wallet w in
  match outcome with
  | Ok sb => (results ++ [result_of wallet sb], w')
  | Raise _ => (results ++ [default_result wallet], w')
  end.

Definition score_wallet_list (wallet_addresses : list string) (w : World)
  : list WalletResult * World :=
  fold_left score_wallet_step wallet_addresses ([], w).

(** What each wallet's scoring evaluates to, in the world its turn finds. *)
Fixpoint outcomes (wallet_addresses : list string) (w : World)
  : list (string * res (Z * Breakdown)) :=
  match wallet_addresses with
  | [] => []
  | wallet :: rest =>
      let (outcome, w') := calculate_wallet_risk_score wallet w in
      (wallet, outcome) :: outcomes rest w'
  end.

End Batch.

Arguments calculate_wallet_risk_score {World}.
Arguments score_wallet_step {World}.
Arguments score_wallet_list {World}.
Arguments outcomes {World}.

(** The record a wallet gets from the outcome of its own scoring. *)
Definition record_of (wo : string * res (Z * Breakdown)) : WalletResult :=
  match snd wo with
  | Ok sb => result_of (fst wo) sb
  | Raise _ => default_result (fst wo)
  end.

(** ** The transaction history provider (lines 22-32 and 43-137) *)

(** [self.compound_contracts] *)
Definition compound_contracts : list (string * string) :=
  [("comptroller", "0x3d9819210a31b4691b2a2d1e8c07b6b9b6e4b2c9");
   ("ceth", "0x4ddc2d193948926d02f9b1fe9e1daa0718270ed5");
   ("cusdc", "0x39aa39c021dfbae8fac545936693ac917d5e7563");
   ("cdai", "0x5d3a536e4d6dbd6114cc1ead35777bab948e3643");
   ("cusdt", "0xf650c3d88d12db855b8bf7d11be6c55a4e07dcc9");
   ("cwbtc", "0xc11b1268c1a384e55c48c2391d8d480264a3a7f4");
   ("cuni", "0x35a18000230da775cac24873d00ff85bccded550");
   ("ccomp", "0x70e36f6bf80a52b3b46b3af8e106cc0ed743e8e4")]%string.

(** [self.compound_contracts.values()] *)
Definition contract_values : list string := map snd compound_contracts.

(** A record of an API result: the dict with its ['to'] key (default the
    empty string) beside the fields that the calculators read. *)
Record ApiTx : Type := mkApiTx {
  to : string;
  fields : Tx
}.

(** The value under ['result']: a list of records, or anything else (the
    text of an error message, null). *)
Inductive api_result : Type :=
| ResultRecords (l : list ApiTx)
| ResultOther.

(** What [requests.get(...)] followed by [response.json()] comes to: one of
    the two kinds of exception that the fetch methods catch, or the decoded
    dict, of which the methods read the keys ['status'], ['message'] and
    ['result'] ([None]: the key is absent). *)
Inductive api_reply : Type :=
| RequestTimeout
| RequestError
| ApiData (status : option string) (message : option string)
          (result : option api_result).

(** [any(contract.lower() in address for contract in
    self.compound_contracts.values())], for a lower-cased address. *)
Definition matches_compound (address : string) : bool :=
  existsb (fun contract => PyStr.contains (PyStr.lower contract) address)
          contract_values.

(** The body of the filtering loop; [address_of] reads ['to'] in the first
    fetch method and ['contractAddress'] in the second. *)
Definition compound_step (address_of : ApiTx -> string)
                         (compound_txs : list ApiTx) (tx : ApiTx) : list ApiTx :=
  if matches_compound (PyStr.lower (address_of tx))
  then compound_txs ++ [tx]
  else compound_txs.

(** From the reply to the returned list.  A missing ['status'] raises
    [KeyError] and a result that is not a list of records raises inside the
    loop; like the exceptions of the request they end in [return []]. *)
Definition compound_records (address_of : ApiTx -> string) (reply : api_reply)
  : list ApiTx :=
  match reply with
  | RequestTimeout => []
  | RequestError => []
  | ApiData None _ _ => []
  | ApiData (Some status) _ result =>
      match result with
      | Some (ResultRecords l) =>
          if String.eqb status "1"
          then fold_left (compound_step address_of) (firstn 500 l) []
          else []
      | Some ResultOther => []
      | None => []
      end
  end.

Section Provider.

(** The remote service: the request of an action ('txlist' or 'tokentx')
    for an address, with the API key if there is one, answers with a reply
    and advances the world. *)
Variable World : Type.
Variable request : string -> string -> option string -> World -> api_reply * World.

(** [self.api_key] *)
Variable api_key : option string.

(** [params['apikey']] is set only for a key that is true. *)
Definition request_key : option string :=
  match api_key with
  | Some k => if PyStr.truthy k then Some k else None
  | None => None
  end.

Definition get_wallet_transactions (wallet_address : string) (w : World)
  : list Tx * World :=
  let (reply, w') := request "txlist" wallet_address request_key w in
  (map fields (compound_records to reply), w').

Definition get_wallet_token_transactions (wallet_address : string) (w : World)
  : list Tx * World :=
  let (reply, w') := request "tokentx" wallet_address request_key w in
  (map fields (compound_records (fun tx => contractAddress (fields tx)) reply), w').

(** The scorer with its own two fetch methods. *)
Definition scorer_calculate_wallet_risk_score :=
  calculate_wallet_risk_score get_wallet_transactions get_wallet_token_transactions.

Definition scorer_score_wallet_list :=
  score_wallet_list get_wallet_transactions get_wallet_token_transactions.

End Provider.

Arguments request_key api_key : clear implicits.
Arguments get_wallet_transactions {World}.
Arguments get_wallet_token_transactions {World}.
Arguments scorer_calculate_wallet_risk_score {World}.
Arguments scorer_score_wallet_list {World}.

(** ** The analysis script ([run_analysis.py]) *)

(** *** Loading the wallet addresses (lines 25-44) *)

Definition possible_columns : list string :=
  ["wallet_id"; "wallet_address"; "address"; "wallet"]%string.

(** [col in df.columns] *)
Definition has_column (columns : list string) (col : string) : bool :=
  existsb (String.eqb col) columns.

(** The column that holds the addresses: the first of the possible names
    that the file has, else the first column of the file; [df.columns[0]]
    raises [IndexError] on a file without columns, and [main] gives up. *)
Definition choose_wallet_column (columns : list string) : option string :=
  match find (has_column columns) possible_columns with
  | Some col => Some col
  | None => hd_error columns
  end.

(** [str.isspace], on ASCII characters. *)
Definition is_space (c : ascii) : bool :=
  let n := nat_of_ascii c in
  ((9 <=? n) && (n <=? 13) || (28 <=? n) && (n <=? 32))%nat.

Fixpoint lstrip (s : string) : string :=
  match s with
  | EmptyString => EmptyString
  | String c r => if is_space c then lstrip r else s
  end.

Fixpoint rstrip (s : string) : string :=
  match s with
  | EmptyString => EmptyString
  | String c r =>
      match rstrip r with
      | EmptyString => if is_space c then EmptyString else String c EmptyString
      | r' => String c r'
      end
  end.

(** [str.strip()] *)
Definition strip (s : string) : string := rstrip (lstrip s).

(** [[addr.strip() for addr in wallet_addresses if addr.strip()]] *)
Definition clean_addresses (wallet_addresses : list string) : list string :=
  map strip (filter (fun addr => PyStr.truthy (strip addr)) wallet_addresses).

(** *** The API key (lines 9 and 54-69) *)

Definition ETHERSCAN_API_KEY : string := "YOUR_API_KEY".

(** [not api_key], for a key that may be [None]. *)
Definition key_missing (k : option string) : bool :=
  match k with
  | Some s => negb (PyStr.truthy s)
  | None => true
  end.

(** The key that [main] hands to the scorer, from the configured constant,
    the environment variable ([None] when unset) and the line typed at the
    prompt; [None] is the early [return None, None]. *)
Definition resolve_api_key (configured : string) (env : option string)
                           (typed : string) : option string :=
  let api_key := Some configured in
  let api_key :=
    if key_missing api_key || String.eqb configured "YOUR_API_KEY_HERE"
    then env else api_key in
  let api_key :=
    if key_missing api_key then Some (strip typed) else api_key in
  if key_missing api_key then None else api_key.

(** *** The risk distribution (lines 107-111) *)

Record distribution : Type := mkDistribution {
  low_risk : Z;
  med_low_risk : Z;
  medium_risk : Z;
  high_risk : Z;
  critical_risk : Z
}.

(** [(mask).sum()] over the score column. *)
Definition mask_sum (mask : Z -> bool) (scores : list Z) : Z :=
  fold_left (fun n s => if mask s then n + 1 else n) scores 0.

Definition risk_distribution (scores : list Z) : distribution :=
  mkDistribution
    (mask_sum (fun s => s <=? 200) scores)
    (mask_sum (fun s => (s >? 200) && (s <=? 400)) scores)
    (mask_sum (fun s => (s >? 400) && (s <=? 600)) scores)
    (mask_sum (fun s => (s >? 600) && (s <=? 800)) scores)
    (mask_sum (fun s => s >? 800) scores).

(** *** The deliverable and its validation (lines 83 and 148-176) *)

(** A data frame as far as [validate_deliverable] looks at it: the names of
    its columns, the two columns read, and whether the dtype of the score
    column is numeric. *)
Record Frame : Type := mkFrame {
  frame_columns : list string;
  frame_wallet_id : list string;
  frame_score : list Z;
  frame_score_numeric : bool
}.

(** [series.duplicated().any()] *)
Fixpoint has_duplicates (l : list string) : bool :=
  match l with
  | [] => false
  | x :: r => existsb (String.eqb x) r || has_duplicates r
  end.

Definition validate_deliverable (df : Frame) : bool :=
  if negb (forallb (has_column (frame_columns df)) ["wallet_id"; "score"]%string)
  then false
  else if negb (forallb (fun s => (s >=? 0) && (s <=? 1000)) (frame_score df))
  then false
  else if has_duplicates (frame_wallet_id df)
  then false
  else if negb (frame_score_numeric df)
  then false
  else true.

(** [results_df[['wallet_id', 'score']]]: the frame of a batch without any
    record has no columns and the selection raises [KeyError]; the scores
    of a batch are Python ints, a numeric column. *)
Definition deliverable (results : list WalletResult) : option Frame :=
  match results with
  | [] => None
  | _ :: _ =>
      Some (mkFrame ["wallet_id"; "score"]%string
                    (map wallet_id results) (map score results) true)
  end.

(** ** The formulas of the specification

    Definitions that follow the wording of the specification, to be compared
    with the functions above, and the sample inputs of the examples. *)


(** Number of elements of [l] that satisfy [p]. *)
Definition count {A} (p : A -> bool) (l : list A) : Z := len (filter p l).

(** *** Liquidation *)

(** The classification of a record by its lower-cased function name. *)
Definition is_supply (tx : Tx) : bool :=
  let f := PyStr.lower (functionName tx) in
  PyStr.contains "mint" f || PyStr.contains "supply" f.

Definition is_borrow (tx : Tx) : bool :=
  negb (is_supply tx) && PyStr.contains "borrow" (PyStr.lower (functionName tx)).

(** Liquidation risk as a closed formula of the classified sample and the
    size of the whole combined list. *)
Definition liquidation_formula (sample : list Tx) (totalCombinedCount : Z) : Q :=
  let supplyCount := count is_supply sample in
  let borrowCount := count is_borrow sample in
  let utilization :=
    if supplyCount + borrowCount =? 0 then (1 # 2)%Q
    else (inject_Z borrowCount / inject_Z (supplyCount + borrowCount + 1))%Q in
  Qmin (Qmin (utilization * 1000) 1000
        + inject_Z (Z.min (Z.max 0 (totalCombinedCount - 100) * 2) 200))%Q
       1000%Q.

(** The formula over the last 50 entries, every one of them classified. *)
Definition liquidation_last_50 (transactions token_transactions : list Tx) : Q :=
  let all_txs := transactions ++ token_transactions in
  liquidation_formula (last_n 50 all_txs) (len all_txs).

(** A record whose [value] converts to a number. *)
Definition convertible (tx : Tx) : bool :=
  match value tx with Some _ => true | None => false end.

(** The formula over those of the last 50 entries whose value converts. *)
Definition liquidation_last_50_convertible (transactions token_transactions : list Tx) : Q :=
  let all_txs := transactions ++ token_transactions in
  liquidation_formula (filter convertible (last_n 50 all_txs)) (len all_txs).

(** A record calling [borrow] whose value does not convert ('abc'). *)
Definition borrow_unconvertible : Tx :=
  mkTx None (Some 0) "borrow" "0" "" "UNKNOWN" (Some 18).

(** A record calling [borrow] with value '0'. *)
Definition borrow_zero : Tx :=
  mkTx (Some (Fin 0)) (Some 0) "borrow" "0" "" "UNKNOWN" (Some 18).

(** *** Volatility *)

(** A finite positive float. *)
Definition pos_fin (x : pyfloat) : Prop :=
  match x with Fin q => (0 < q)%Q | _ => False end.

(** Normal transactions: one whose value is 'inf' (or '1e400'), one of
    value 10^18; neither has a [timeStamp] key. *)
Definition tx_value_inf : Tx := mkTx (Some PInf) (Some 0) "" "0" "" "UNKNOWN" (Some 18).

Definition tx_value_one : Tx :=
  mkTx (Some (Fin (inject_Z (10 ^ 18)))) (Some 0) "" "0" "" "UNKNOWN" (Some 18).

(** A record with the value '1e-320': [float] reads the double
    2024 * 2^-1074. *)
Definition tx_value_tiny : Tx :=
  mkTx (Some (Fin (2024 # 2 ^ 1074))) (Some 0) "" "0" "" "UNKNOWN" (Some 18).

(** *** Concentration *)

(** The distinct lower-cased contract addresses of a token list. *)
Definition unique_addresses (token_transactions : list Tx) : list string :=
  nodup string_dec (map (fun tx => PyStr.lower (contractAddress tx)) token_transactions).

Definition unique_count (token_transactions : list Tx) : Z :=
  len (unique_addresses token_transactions).

(** What one iteration of the concentration loop does to the set. *)
Definition add_address (u : list string) (tx : Tx) : list string :=
  ListSet.set_add string_dec (PyStr.lower (contractAddress tx)) u.

(** The exception, if any, that the value tracking of one record raises past
    the [except (ValueError, TypeError)] clause. *)
Definition escaping (tx : Tx) : option exn :=
  match tokenDecimal tx, value tx with
  | Some d, Some _ =>
      if 308 <? d then Some OverflowError
      else if d <? -323 then Some ZeroDivisionError
      else None
  | _, _ => None
  end.

Fixpoint first_escaping (l : list Tx) : option exn :=
  match l with
  | [] => None
  | tx :: r => match escaping tx with Some e => Some e | None => first_escaping r end
  end.

(** A cToken transfer whose [tokenDecimal] is '400' and whose value is '1'. *)
Definition token_decimals_400 : Tx :=
  mkTx (Some (Fin 1)) (Some 1700000000) "" "0"
       "0x4ddc2d193948926d02f9b1fe9e1daa0718270ed5" "cETH" (Some 400).

(** A token transfer from the contract at [addr], 8 decimals. *)
Definition token_from (addr : string) : Tx :=
  mkTx (Some (Fin 100000000)) (Some 1700000000) "" "0" addr "cTOKEN" (Some 8).

(** *** Leverage and behavior *)

(** A record without function name, of value 0. *)
Definition plain_tx : Tx := mkTx (Some (Fin 0)) (Some 0) "" "0" "" "UNKNOWN" (Some 18).

Fixpoint adjacent_gaps_under (bound : Z) (l : list Z) : Z :=
  match l with
  | a :: (b :: _) as r =>
      (if b - a <? bound then 1 else 0) + adjacent_gaps_under bound r
  | _ => 0
  end.

(** The timestamps that convert and are positive, in list order. *)
Definition valid_timestamps (txs : list Tx) : list Z :=
  flat_map (fun tx => match timeStamp tx with
                      | Some t => if t >? 0 then [t] else []
                      | None => []
                      end) txs.

Definition is_failed (tx : Tx) : bool := String.eqb (isError tx) "1".

Definition is_large (tx : Tx) : bool :=
  match value tx with
  | Some v => fgt (fdiv v wei) (Fin 1000)
  | None => false
  end.

(** Flag 1: more than 10 adjacent gaps under 60 among the sorted
    timestamps of both lists. *)
Definition flag_rapid (transactions token_transactions : list Tx) : bool :=
  adjacent_gaps_under 60 (sorted (valid_timestamps (transactions ++ token_transactions)))
  >? 10.

(** Flag 2: the failed normal transactions exceed 10% of the normal count. *)
Definition flag_failed (transactions : list Tx) : bool :=
  (len transactions >? 0)
  && Qltb (inject_Z (len transactions) * (1 # 10)) (inject_Z (count is_failed transactions)).

(** Flag 3: more than 5 normal transactions with converted value over 1000. *)
Definition flag_large (transactions : list Tx) : bool :=
  count is_large transactions >? 5.

Definition b2z (b : bool) : Z := if b then 1 else 0.

Definition flags_triggered (transactions token_transactions : list Tx) : Z :=
  b2z (flag_rapid transactions token_transactions)
  + b2z (flag_failed transactions) + b2z (flag_large transactions).

(** A failed transfer of 2000 units at time [t]. *)
Definition whale_failed (t : Z) : Tx :=
  mkTx (Some (Fin (inject_Z (2000 * 10 ^ 18)))) (Some t) "" "1" "" "UNKNOWN" (Some 18).

(** Twelve of them, one second apart: all three flags hold. *)
Definition all_flags_input : list Tx :=
  map whale_failed [1; 2; 3; 4; 5; 6; 7; 8; 9; 10; 11; 12].

(** *** Batch *)

(** A provider for the sample batch: wallet B has the two normal
    transactions of which one has an infinite value, every other wallet has
    no history; the world counts the requests. *)
Definition sample_transactions (wallet : string) (w : nat) : list Tx * nat :=
  (if String.eqb wallet "B" then [tx_value_inf; tx_value_one] else [], S w).

Definition sample_token_transactions (wallet : string) (w : nat) : list Tx * nat :=
  ([], S w).

(** The record of a wallet without history. *)
Definition inactive_result (wallet : string) : WalletResult :=
  match score_transactions [] [] with
  | Ok sb => result_of wallet sb
  | Raise _ => default_result wallet
  end.

(** *** What the later properties are stated with *)

(** The amount that the volatility loop keeps of a record: both
    conversions succeed and the converted value is positive. *)
Definition kept_amount (tx : Tx) : option pyfloat :=
  match value tx, timeStamp tx with
  | Some v, Some _ =>
      if fgt (underflow (fdiv v wei)) (Fin 0) then Some (underflow (fdiv v wei)) else None
  | _, _ => None
  end.

Definition kept_amounts (transactions : list Tx) : list pyfloat :=
  flat_map (fun tx => match kept_amount tx with Some a => [a] | None => [] end)
           transactions.

(** The volatility score of the collected amounts and timestamps: the
    calculator from [np.array(amounts)] on. *)
Definition volatility_of (amounts : list pyfloat) (timestamps : list Z) : pyfloat :=
  let cv_amounts :=
    if fgt (np_mean amounts) (Fin 0)
    then fdiv (np_std amounts) (np_mean amounts)
    else Fin 1 in
  let cv_timing :=
    if len timestamps >? 1 then
      let time_diffs := of_ints (np_diff (sorted timestamps)) in
      if fgt (np_mean time_diffs) (Fin 0)
      then fdiv (np_std time_diffs) (np_mean time_diffs)
      else Fin 0
    else Fin 0 in
  py_min (fadd (fmul cv_amounts (Fin 300)) (fmul cv_timing (Fin (1 # 100))))
         (Fin 1000).

(** A positive float: finite and positive, or plus infinity. *)
Definition pos_or_inf (x : pyfloat) : Prop := pos_fin x \/ x = PInf.

(** The test of the filtering loop on a record. *)
Definition is_compound (address_of : ApiTx -> string) (tx : ApiTx) : bool :=
  matches_compound (PyStr.lower (address_of tx)).

(** A reply from which the fetch methods take no record: the request
    raised, a key is missing, the status is not '1', or the result is not a
    list. *)
Definition unusable (reply : api_reply) : Prop :=
  match reply with
  | ApiData (Some status) _ (Some (ResultRecords _)) => String.eqb status "1" = false
  | _ => True
  end.

(** The address of the cETH contract in upper case, and a record sent to
    it. *)
Definition ceth_upper : string := "0X4DDC2D193948926D02F9B1FE9E1DAA0718270ED5".

Definition to_ceth : ApiTx := mkApiTx ceth_upper plain_tx.

(** A token transfer of the cETH contract, its address in upper case. *)
Definition ceth_transfer : ApiTx := mkApiTx "" (token_from ceth_upper).

(** A service that answers every request with a timeout. *)
Definition always_timeout (action address : string) (key : option string) (w : nat)
  : api_reply * nat :=
  (RequestTimeout, S w).



(** The transaction lists within the range of the machine numbers of the
    volatility calculator.
    - The timestamps that convert are within 61 bits, so numpy holds them
      and their differences in int64 without wrapping around, as the exact
      integers of [np_diff] assume.
    - The list has at most 10^9 records, so no sum of doubles overflows for
      the number of its terms. *)
Definition within_machine_range (transactions : list Tx) : Prop :=
  len transactions <= 10 ^ 9 /\
  Forall (fun tx => match timeStamp tx with
                    | Some t => - 2 ^ 61 <= t <= 2 ^ 61
                    | None => True
                    end) transactions.

(** The token decimals that convert are within a million in size.  Python
    then computes [10 ** decimals]: an int that is too large for a double
    beyond 308, the double 0.0 below -323.  (On a much larger exponent
    Python runs out of memory, or fails converting the exponent itself.) *)
Definition decimals_within_million (token_transactions : list Tx) : Prop :=
  Forall (fun tx => match tokenDecimal tx with
                    | Some d => - 10 ^ 6 <= d <= 10 ^ 6
                    | None => True
                    end) token_transactions.

(** A record with a function name, and one whose name has a risky word. *)
Definition is_named (tx : Tx) : bool := PyStr.truthy (PyStr.lower (functionName tx)).

Definition is_risky (tx : Tx) : bool :=
  is_named tx && PyStr.contains_any risky_functions (PyStr.lower (functionName tx)).

(** The components of a record are numbers in [0, 1000] and its counts
    are not negative. *)
Definition result_in_range (r : WalletResult) : Prop :=
  0 <= score r <= 1000 /\
  in_range (liquidation_risk r) /\ in_range (volatility_risk r) /\
  in_range (concentration_risk r) /\ in_range (leverage_risk r) /\
  in_range (behavioral_risk r) /\
  0 <= tx_count r /\ 0 <= token_tx_count r.

(** * Properties *)

(** ** Facts about the numbers *)

Lemma Qltb_spec x y : Qltb x y = true <-> (x < y)%Q.
Proof. unfold Qltb, Qlt. apply Z.ltb_lt. Qed.

Lemma Qltb_false x y : Qltb x y = false <-> (y <= x)%Q.
Proof. unfold Qltb, Qle. rewrite Z.ltb_ge. reflexivity. Qed.

Lemma py_minQ_Qmin a b : (py_minQ a b == Qmin a b)%Q.
Proof.
  unfold py_minQ. destruct (Qltb b a) eqn:E.
  - apply Qltb_spec in E. symmetry. apply Q.min_r. apply Qlt_le_weak, E.
  - apply Qltb_false in E. symmetry. apply Q.min_l, E.
Qed.

Lemma py_minQ_le_r a b : (py_minQ a b <= b)%Q.
Proof.
  unfold py_minQ. destruct (Qltb b a) eqn:E.
  - apply Qle_refl.
  - apply Qltb_false in E. exact E.
Qed.

Lemma py_minQ_glb a b c : (c <= a)%Q -> (c <= b)%Q -> (c <= py_minQ a b)%Q.
Proof. unfold py_minQ. destruct (Qltb b a); auto. Qed.

Lemma py_minZ_min a b : py_minZ a b = Z.min a b.
Proof. unfold py_minZ. destruct (b <? a) eqn:E; lia. Qed.

Lemma py_maxZ_max a b : py_maxZ a b = Z.max a b.
Proof. unfold py_maxZ. destruct (b >? a) eqn:E; lia. Qed.

(** [round_half_even] respects equality of rationals, stays within one of the
    floor, and never crosses an integer. *)
Lemma round_half_even_proper q q' : (q == q')%Q -> round_half_even q = round_half_even q'.
Proof.
  intros H. unfold round_half_even.
  rewrite (Qfloor_comp _ _ H).
  assert (E : ((q - inject_Z (Qfloor q') ?= 1 # 2) = (q' - inject_Z (Qfloor q') ?= 1 # 2))%Q)
    by (rewrite H; reflexivity).
  rewrite E. reflexivity.
Qed.

Lemma round_half_even_floor q :
  Qfloor q <= round_half_even q <= Qfloor q + 1.
Proof.
  unfold round_half_even.
  destruct (q - inject_Z (Qfloor q) ?= 1 # 2)%Q; [destruct (Z.even (Qfloor q))| |]; lia.
Qed.

Lemma round_half_even_Z n : round_half_even (inject_Z n) = n.
Proof.
  unfold round_half_even. rewrite Qfloor_Z.
  replace (inject_Z n - inject_Z n ?= 1 # 2)%Q with Lt; [reflexivity|].
  symmetry. apply Qlt_alt.
  assert (E : (inject_Z n - inject_Z n == 0)%Q) by ring.
  rewrite E. reflexivity.
Qed.

Lemma round_half_even_ge n q : (inject_Z n <= q)%Q -> n <= round_half_even q.
Proof.
  intros H. apply Qfloor_resp_le in H. rewrite Qfloor_Z in H.
  pose proof (round_half_even_floor q). lia.
Qed.

Lemma round_half_even_le n q : (q <= inject_Z n)%Q -> round_half_even q <= n.
Proof.
  intros H. pose proof (round_half_even_floor q) as B.
  pose proof (Qfloor_resp_le _ _ H) as F. rewrite Qfloor_Z in F.
  destruct (Z.eq_dec (Qfloor q) n) as [E|E]; [|lia].
  assert (Hq : (q == inject_Z n)%Q).
  { apply Qle_antisym; [exact H|]. rewrite <- E. apply Qfloor_le. }
  rewrite (round_half_even_proper _ _ Hq), round_half_even_Z. lia.
Qed.

(** ** The empty-input scenario *)

(** C1. On empty normal and token transaction lists the five calculators
    return 500, 300, 600, 300 and 400, and the composite score is 430. *)
Theorem empty_input_scores :
  calculate_liquidation_risk [] [] = 500%Q /\
  calculate_volatility_risk [] = Fin 300 /\
  calculate_concentration_risk [] = Ok 600 /\
  calculate_leverage_risk [] = 300%Q /\
  calculate_behavioral_risk [] [] = 400 /\
  final_score_of (Fin 500) (Fin 300) (of_int 600) (Fin 300) (of_int 400) = Ok 430 /\
  match score_transactions [] [] with
  | Ok (final_score, breakdown) => final_score = 430 /\ bd_final_score breakdown = 430
  | Raise _ => False
  end.
Proof. repeat split; reflexivity. Qed.

(** ** The weighted aggregator *)





(** The sub-scores 877, 400, 600, 96 and 0: the binary64 sum is just below
    497.5 and the composite is 497.  The sum of the exact products is
    497.5, which rounds to the even 498: on the last bit of the sum the
    exact aggregator [final_score_of] can differ by one from the machine. *)
Lemma binary64_below_half :
  Float64.final_score_of (Float64.of_int 877) (Float64.of_int 400) (Float64.of_int 600)
                         (Float64.of_int 96) (Float64.of_int 0) = Ok 497 /\
  final_score_of (of_int 877) (of_int 400) (of_int 600) (of_int 96) (of_int 0) = Ok 498.
Proof. split; reflexivity. Qed.

(** On the sub-scores of a wallet without history the two aggregators
    agree: 430. *)
Lemma binary64_empty_input_composite :
  Float64.final_score_of (Float64.of_int 500) (Float64.of_int 300) (Float64.of_int 600)
                         (Float64.of_int 300) (Float64.of_int 400) = Ok 430 /\
  final_score_of (of_int 500) (of_int 300) (of_int 600) (of_int 300) (of_int 400) = Ok 430.
Proof. split; reflexivity. Qed.

(** ** Liquidation risk *)

Lemma count_cons {A} (p : A -> bool) x l :
  count p (x :: l) = (if p x then 1 else 0) + count p l.
Proof.
  unfold count, len. cbn [filter]. destruct (p x); cbn [List.length]; lia.
Qed.

Lemma count_nil {A} (p : A -> bool) : count p [] = 0.
Proof. reflexivity. Qed.

Lemma count_nonneg {A} (p : A -> bool) l : 0 <= count p l.
Proof. unfold count, len. lia. Qed.

Lemma liquidation_step_counts st tx :
  supply_count (liquidation_step st tx)
  = supply_count st + (if convertible tx && is_supply tx then 1 else 0) /\
  borrow_count (liquidation_step st tx)
  = borrow_count st + (if convertible tx && is_borrow tx then 1 else 0).
Proof.
  unfold liquidation_step, convertible, is_borrow, is_supply.
  destruct (value tx); simpl; [|lia].
  destruct (PyStr.contains "mint" (PyStr.lower (functionName tx))
            || PyStr.contains "supply" (PyStr.lower (functionName tx))); simpl;
    [lia|].
  destruct (PyStr.contains "borrow" (PyStr.lower (functionName tx))); simpl; lia.
Qed.

Lemma count_filter_cons {A} (p c : A -> bool) x l :
  count p (filter c (x :: l))
  = (if c x && p x then 1 else 0) + count p (filter c l).
Proof.
  simpl. destruct (c x); simpl; [apply count_cons | reflexivity].
Qed.

(** The loop counts the supply and the borrow records among those whose
    value converts. *)
Lemma liquidation_loop_counts l : forall st,
  supply_count (fold_left liquidation_step l st)
  = supply_count st + count is_supply (filter convertible l) /\
  borrow_count (fold_left liquidation_step l st)
  = borrow_count st + count is_borrow (filter convertible l).
Proof.
  induction l as [|tx l IH]; intros st.
  - simpl. rewrite !count_nil. lia.
  - change (fold_left liquidation_step (tx :: l) st)
      with (fold_left liquidation_step l (liquidation_step st tx)).
    destruct (IH (liquidation_step st tx)) as [S B].
    destruct (liquidation_step_counts st tx) as [S1 B1].
    rewrite S, B, S1, B1, !count_filter_cons. lia.
Qed.

Lemma frequency_penalty_formula n :
  (if n >? 100 then py_minZ ((n - 100) * 2) 200 else 0)
  = Z.min (Z.max 0 (n - 100) * 2) 200.
Proof. rewrite py_minZ_min. destruct (n >? 100) eqn:E; lia. Qed.

Lemma py_not_app {A} (l1 l2 : list A) :
  py_not l1 && py_not l2 = py_not (l1 ++ l2).
Proof. destruct l1, l2; reflexivity. Qed.

Lemma py_not_false {A} (l : list A) : l <> [] -> py_not l = false.
Proof. destruct l; [congruence | reflexivity]. Qed.

(** C5, as the code has it.  On a non-empty concatenation of normal and
    token transactions the liquidation calculator classifies, by lower-cased
    function name, those of the last 50 entries whose value converts to a
    number (an entry whose conversion fails is skipped), takes utilization =
    borrowCount / (supplyCount + borrowCount + 1), or 0.5 when nothing was
    classified, and returns
    min(min(utilization * 1000, 1000) + min(max(0, total - 100) * 2, 200), 1000)
    with the penalty over the full combined count. *)
Theorem liquidation_nonempty transactions token_transactions :
  transactions ++ token_transactions <> [] ->
  (calculate_liquidation_risk transactions token_transactions
   == liquidation_last_50_convertible transactions token_transactions)%Q.
Proof.
  intros NE. unfold calculate_liquidation_risk, liquidation_last_50_convertible.
  rewrite py_not_app, (py_not_false _ NE). cbv zeta.
  set (all_txs := transactions ++ token_transactions).
  destruct (liquidation_loop_counts (last_n 50 all_txs) (mkLiq 0 0 (Fin 0))) as [S B].
  simpl in S, B. rewrite S, B. unfold liquidation_formula.
  rewrite frequency_penalty_formula.
  rewrite !py_minQ_Qmin. reflexivity.
Qed.

(** C5, as stated, fails: of two [borrow] records the one whose value does not
    convert is never classified, so the code sees one borrow (score 500)
    where the formula over all of the last 50 sees two (score 2000/3). *)
Lemma liquidation_skips_unconvertible :
  ~ (calculate_liquidation_risk [borrow_unconvertible; borrow_zero] []
     == liquidation_last_50 [borrow_unconvertible; borrow_zero] [])%Q.
Proof. vm_compute. discriminate. Qed.

Lemma liquidation_nonempty_witness :
  [borrow_unconvertible; borrow_zero] ++ [] <> [] /\
  (calculate_liquidation_risk [borrow_unconvertible; borrow_zero] []
   == liquidation_last_50_convertible [borrow_unconvertible; borrow_zero] [])%Q.
Proof.
  split; [discriminate|].
  apply (liquidation_nonempty [borrow_unconvertible; borrow_zero] []). discriminate.
Defined.

(** ** Behavioral risk *)

Lemma timestamps_loop l : forall acc,
  fold_left timestamp_step l acc = acc ++ valid_timestamps l.
Proof.
  induction l as [|tx l IH]; intros acc; simpl.
  - now rewrite app_nil_r.
  - rewrite IH. unfold timestamp_step.
    destruct (timeStamp tx) as [t|]; [destruct (t >? 0)|]; simpl;
      now rewrite <- ?app_assoc.
Qed.

Lemma rapid_step_shift a l i c :
  (1 <= i)%nat -> rapid_step (a :: l) c (S i) = rapid_step l c i.
Proof.
  intros H. unfold rapid_step. destruct i as [|i]; [lia|].
  simpl. rewrite Nat.sub_0_r. reflexivity.
Qed.

Lemma rapid_loop_shift a l n : forall k c,
  (1 <= k)%nat ->
  fold_left (rapid_step (a :: l)) (seq (S k) n) c
  = fold_left (rapid_step l) (seq k n) c.
Proof.
  induction n as [|n IH]; intros k c H; simpl; [reflexivity|].
  rewrite rapid_step_shift by exact H. apply IH. lia.
Qed.

(** The index loop counts the adjacent gaps under 60. *)
Lemma rapid_loop_gaps l : forall a c,
  fold_left (rapid_step (a :: l)) (seq 1 (List.length l)) c
  = c + adjacent_gaps_under 60 (a :: l).
Proof.
  induction l as [|b l IH]; intros a c.
  - simpl. lia.
  - cbn [List.length seq fold_left].
    rewrite rapid_loop_shift by lia. rewrite IH.
    unfold rapid_step. cbn [nth Nat.sub].
    change (adjacent_gaps_under 60 (a :: b :: l))
      with ((if b - a <? 60 then 1 else 0) + adjacent_gaps_under 60 (b :: l)).
    destruct (b - a <? 60); lia.
Qed.

Lemma rapid_tx_count_gaps l : rapid_tx_count l = adjacent_gaps_under 60 l.
Proof.
  unfold rapid_tx_count. destruct l as [|a l]; [reflexivity|].
  cbn [List.length]. rewrite Nat.sub_succ, Nat.sub_0_r. apply rapid_loop_gaps.
Qed.

Lemma failed_loop l : forall c,
  fold_left (fun n tx => if String.eqb (isError tx) "1" then n + 1 else n) l c
  = c + count is_failed l.
Proof.
  induction l as [|tx l IH]; intros c; simpl.
  - rewrite count_nil. lia.
  - rewrite IH, count_cons. unfold is_failed.
    destruct (String.eqb (isError tx) "1"); lia.
Qed.

Lemma large_loop l : forall c,
  fold_left large_step l c = c + count is_large l.
Proof.
  induction l as [|tx l IH]; intros c; simpl.
  - rewrite count_nil. lia.
  - rewrite IH, count_cons. unfold large_step, is_large.
    destruct (value tx) as [v|]; [destruct (fgt (fdiv v wei) (Fin 1000))|]; lia.
Qed.

Lemma behavioral_formula transactions token_transactions :
  calculate_behavioral_risk transactions token_transactions
  = (if py_not (transactions ++ token_transactions) then 400
     else 200 * flags_triggered transactions token_transactions).
Proof.
  unfold calculate_behavioral_risk. cbv zeta.
  destruct (py_not (transactions ++ token_transactions)); [reflexivity|].
  unfold flags_triggered, flag_rapid, flag_failed, flag_large, failed_count,
    large_tx_count.
  rewrite rapid_tx_count_gaps, timestamps_loop, failed_loop, large_loop.
  cbn [app Z.add].
  rewrite py_minZ_min.
  destruct (adjacent_gaps_under 60 (sorted (valid_timestamps (transactions ++ token_transactions))) >? 10);
    destruct ((len transactions >? 0)
              && Qltb (inject_Z (len transactions) * (1 # 10))
                      (inject_Z (count is_failed transactions)));
    destruct (count is_large transactions >? 5); reflexivity.
Qed.

Lemma behavioral_bounds transactions token_transactions :
  0 <= calculate_behavioral_risk transactions token_transactions <= 600.
Proof.
  rewrite behavioral_formula. unfold flags_triggered, b2z.
  destruct (py_not (transactions ++ token_transactions));
    destruct (flag_rapid transactions token_transactions);
    destruct (flag_failed transactions);
    destruct (flag_large transactions); lia.
Qed.

(** C6, as the code has it.  The behavioral calculator returns at most 600
    for every pair of lists; on the empty pair it returns the default 400,
    and on every other input 200 times the number of triggered flags.  The
    ceiling is reached: on [all_flags_input] the three flags hold together
    and the result is 600. *)
Theorem behavioral_flags transactions token_transactions :
  0 <= calculate_behavioral_risk transactions token_transactions <= 600 /\
  calculate_behavioral_risk transactions token_transactions
  = (if py_not (transactions ++ token_transactions) then 400
     else 200 * flags_triggered transactions token_transactions) /\
  flags_triggered all_flags_input [] = 3 /\
  calculate_behavioral_risk all_flags_input [] = 600.
Proof.
  split; [apply behavioral_bounds|].
  split; [apply behavioral_formula|]. split; reflexivity.
Qed.

(** C6, as stated, fails on the empty pair of lists: no flag is triggered
    there, and the result is 400, not 0. *)
Lemma behavioral_empty_not_flags :
  flags_triggered [] [] = 0 /\
  calculate_behavioral_risk [] [] <> 200 * flags_triggered [] [].
Proof. split; [reflexivity | vm_compute; discriminate]. Qed.

(** ** Leverage risk *)

Lemma leverage_loop_bounds l : forall st,
  0 <= leverage_indicators st <= total_functions st ->
  0 <= leverage_indicators (fold_left leverage_step l st)
    <= total_functions (fold_left leverage_step l st).
Proof.
  induction l as [|tx l IH]; intros st H; simpl; [exact H|].
  apply IH. unfold leverage_step.
  destruct (PyStr.truthy _); [|exact H].
  destruct (PyStr.contains_any _ _); simpl; lia.
Qed.

Lemma leverage_loop_unnamed l : forall st,
  Forall (fun tx => functionName tx = EmptyString) l ->
  fold_left leverage_step l st = st.
Proof.
  induction l as [|tx l IH]; intros st H; simpl; [reflexivity|].
  inversion H as [|? ? Htx Hl]; subst.
  unfold leverage_step at 2. rewrite Htx. simpl. apply IH, Hl.
Qed.

(** C8. When every normal transaction has an empty function name the
    leverage calculator returns 400 whatever the length of the list, and on
    the empty list it returns 300. *)
Theorem leverage_unnamed transactions :
  Forall (fun tx => functionName tx = EmptyString) transactions ->
  calculate_leverage_risk transactions
  = if py_not transactions then 300%Q else 400%Q.
Proof.
  intros H. unfold calculate_leverage_risk.
  destruct (py_not transactions); [reflexivity|].
  rewrite (leverage_loop_unnamed _ _ H). reflexivity.
Qed.

Lemma leverage_unnamed_witness :
  Forall (fun tx => functionName tx = EmptyString) [plain_tx; plain_tx; plain_tx] /\
  calculate_leverage_risk [plain_tx; plain_tx; plain_tx] = 400%Q /\
  calculate_leverage_risk [] = 300%Q.
Proof.
  split; [repeat constructor|].
  split.
  - apply (leverage_unnamed [plain_tx; plain_tx; plain_tx]). repeat constructor.
  - apply (leverage_unnamed []). constructor.
Defined.

Lemma ratio_times_800 i t :
  0 <= i <= t -> 0 < t ->
  (0 <= inject_Z i / inject_Z t * 800 <= 800)%Q.
Proof.
  intros Hi Ht.
  assert (T : (inject_Z 0 < inject_Z t)%Q) by (rewrite <- Zlt_Qlt; lia).
  assert (I0 : (inject_Z 0 <= inject_Z i)%Q) by (rewrite <- Zle_Qle; lia).
  assert (IT : (inject_Z i <= inject_Z t)%Q) by (rewrite <- Zle_Qle; lia).
  assert (R0 : (0 <= inject_Z i / inject_Z t)%Q).
  { apply Qle_shift_div_l; [exact T|]. rewrite Qmult_0_l. exact I0. }
  assert (R1 : (inject_Z i / inject_Z t <= 1)%Q).
  { apply Qle_shift_div_r; [exact T|]. rewrite Qmult_1_l. exact IT. }
  split; lra.
Qed.

Lemma leverage_bounds transactions :
  (0 <= calculate_leverage_risk transactions <= 800)%Q.
Proof.
  set (st := fold_left leverage_step transactions (mkLev 0 0)).
  assert (B : 0 <= leverage_indicators st <= total_functions st)
    by (apply leverage_loop_bounds; simpl; lia).
  unfold calculate_leverage_risk. fold st.
  destruct (py_not transactions); [split; discriminate|].
  destruct (total_functions st =? 0) eqn:E; [split; discriminate|].
  apply Z.eqb_neq in E.
  pose proof (ratio_times_800 _ _ B ltac:(lia)) as [L U].
  unfold py_minQ.
  destruct (Qltb 1000 _) eqn:M; [apply Qltb_spec in M; lra|]. split; assumption.
Qed.

(** C10. The leverage calculator returns at most 800 on every input: the
    count of risky calls never exceeds the count of named calls, so the ratio
    is at most 1, and the two defaults 300 and 400 are below 800. *)
Theorem leverage_at_most_800 transactions :
  let st := fold_left leverage_step transactions (mkLev 0 0) in
  0 <= leverage_indicators st <= total_functions st /\
  (0 <= calculate_leverage_risk transactions <= 800)%Q.
Proof.
  intros st. split.
  - apply leverage_loop_bounds. simpl. lia.
  - apply leverage_bounds.
Qed.

(** ** Concentration risk *)

Lemma concentration_step_tokens st tx :
  match concentration_step st tx with
  | Ok st' => unique_tokens st' = add_address (unique_tokens st) tx /\ escaping tx = None
  | Raise e => escaping tx = Some e
  end.
Proof.
  unfold concentration_step, escaping, div_pow10, add_address.
  destruct (tokenDecimal tx) as [d|]; [|split; reflexivity].
  destruct (value tx) as [v|]; [|split; reflexivity].
  destruct (308 <? d); [reflexivity|].
  destruct (d <? -323); [reflexivity|].
  simpl. split; reflexivity.
Qed.

(** The loop either stops at the first record whose tracking raises, or
    ends with the set of all the addresses. *)
Lemma concentration_loop l : forall st,
  match for_each concentration_step l st with
  | Ok st' => unique_tokens st' = fold_left add_address l (unique_tokens st)
              /\ first_escaping l = None
  | Raise e => first_escaping l = Some e
  end.
Proof.
  induction l as [|tx l IH]; intros st; simpl; [split; reflexivity|].
  pose proof (concentration_step_tokens st tx) as H.
  destruct (concentration_step st tx) as [st1|e]; simpl.
  - destruct H as [U E]. rewrite E. specialize (IH st1).
    destruct (for_each concentration_step l st1); [|exact IH].
    rewrite <- U. exact IH.
  - rewrite H. reflexivity.
Qed.

Lemma add_address_In l : forall u x,
  In x (fold_left add_address l u)
  <-> In x u \/ In x (map (fun tx => PyStr.lower (contractAddress tx)) l).
Proof.
  induction l as [|tx l IH]; intros u x; simpl; [tauto|].
  rewrite IH. unfold add_address at 1. rewrite ListSet.set_add_iff. intuition.
Qed.

Lemma add_address_NoDup l : forall u, NoDup u -> NoDup (fold_left add_address l u).
Proof.
  induction l as [|tx l IH]; intros u H; simpl; [exact H|].
  apply IH. apply ListSet.set_add_nodup, H.
Qed.

(** The set built by the loop has as many elements as there are distinct
    lower-cased addresses. *)
Lemma add_address_count l :
  len (fold_left add_address l []) = unique_count l.
Proof.
  unfold unique_count, unique_addresses, len. f_equal.
  apply Permutation.Permutation_length, Permutation.NoDup_Permutation.
  - apply add_address_NoDup. constructor.
  - apply NoDup_nodup.
  - intros x. rewrite add_address_In, nodup_In. simpl. tauto.
Qed.

Lemma unique_count_pos l : l <> [] -> 1 <= unique_count l.
Proof.
  destruct l as [|tx l]; [congruence|]. intros _.
  unfold unique_count, unique_addresses, len.
  assert (H : In (PyStr.lower (contractAddress tx))
                 (nodup string_dec
                    (map (fun tx => PyStr.lower (contractAddress tx)) (tx :: l))))
    by (apply nodup_In; left; reflexivity).
  destruct (nodup _ _); [destruct H|]. cbn [List.length]. lia.
Qed.

(** The calculator on every input: 600 on the empty list; on a non-empty
    list the exception of the first record whose tracking raises, and
    without such a record the step function of the number of distinct
    addresses. *)
Lemma concentration_characterised token_transactions :
  calculate_concentration_risk token_transactions
  = if py_not token_transactions then Ok 600
    else match first_escaping token_transactions with
         | Some e => Raise e
         | None => Ok (concentration_score (unique_count token_transactions))
         end.
Proof.
  unfold calculate_concentration_risk.
  destruct (py_not token_transactions); [reflexivity|].
  pose proof (concentration_loop token_transactions (mkConc [] [])) as H.
  destruct (for_each concentration_step token_transactions (mkConc [] [])) as [st|e];
    simpl.
  - destruct H as [U E]. rewrite E, U. simpl. rewrite add_address_count. reflexivity.
  - rewrite H. reflexivity.
Qed.

Lemma concentration_score_steps n :
  (n = 1 -> concentration_score n = 700) /\
  (2 <= n <= 3 -> concentration_score n = 400) /\
  (4 <= n -> concentration_score n = 200).
Proof.
  unfold concentration_score. repeat split; intros H.
  - subst n. reflexivity.
  - destruct (n =? 0) eqn:E0; [lia|]. destruct (n =? 1) eqn:E1; [lia|].
    destruct (n <=? 3) eqn:E3; [reflexivity | lia].
  - destruct (n =? 0) eqn:E0; [lia|]. destruct (n =? 1) eqn:E1; [lia|].
    destruct (n <=? 3) eqn:E3; [lia | reflexivity].
Qed.

(** Whenever the calculator returns, it returns 600 for the empty list and
    otherwise the step value of the number of distinct addresses; it never
    returns 800, since a non-empty list has at least one address. *)
Lemma concentration_returns token_transactions r :
  calculate_concentration_risk token_transactions = Ok r ->
  r = (if py_not token_transactions then 600
       else concentration_score (unique_count token_transactions)) /\
  r <> 800 /\ 0 <= r <= 1000.
Proof.
  rewrite concentration_characterised.
  destruct token_transactions as [|tx l]; simpl py_not; cbv iota.
  - intros [= <-]. repeat split; lia.
  - destruct (first_escaping (tx :: l)); [discriminate|]. intros [= <-].
    pose proof (unique_count_pos (tx :: l) ltac:(discriminate)) as P.
    split; [reflexivity|]. unfold concentration_score.
    destruct (unique_count (tx :: l) =? 0) eqn:E0; [lia|].
    destruct (unique_count (tx :: l) =? 1); [lia|].
    destruct (unique_count (tx :: l) <=? 3); lia.
Qed.

Lemma concentration_sample_counts :
  map concentration_score [1; 2; 3; 4; 10] = [700; 400; 400; 200; 200].
Proof. reflexivity. Qed.

(** Addresses that differ in case only are one token. *)
Lemma concentration_sample_lists :
  calculate_concentration_risk [token_from "0xAB"; token_from "0xab"] = Ok 700 /\
  calculate_concentration_risk [token_from "0xAB"; token_from "0xcd"; token_from "0xCD"]
  = Ok 400 /\
  calculate_concentration_risk
    [token_from "0x1"; token_from "0x2"; token_from "0x3"; token_from "0x4"]
  = Ok 200.
Proof. repeat split; reflexivity. Qed.

(** C7, at the failing input.  One token transfer with [tokenDecimal] '400'
    and value '1': the list is not empty and has one distinct address, for
    which the step function gives 700, but the division by [10 ** 400]
    raises [OverflowError], which the [except] clause does not catch, and
    the calculator returns nothing. *)
Theorem concentration_raises_on_decimals_400 :
  py_not [token_decimals_400] = false /\
  concentration_score (unique_count [token_decimals_400]) = 700 /\
  calculate_concentration_risk [token_decimals_400] = Raise OverflowError.
Proof. repeat split; reflexivity. Qed.

(** ** Batch orchestration *)

Section BatchFacts.

Variable World : Type.
Variable get_transactions : string -> World -> list Tx * World.
Variable get_token_transactions : string -> World -> list Tx * World.


(** The loop appends, wallet by wallet, the record of that wallet's own
    outcome. *)
Lemma score_wallet_loop wallets : forall results w,
  fst (fold_left (score_wallet_step get_transactions get_token_transactions) wallets (results, w))
  = results ++ map record_of (outcomes get_transactions get_token_transactions wallets w).
Proof.
  induction wallets as [|wallet rest IH]; intros results w.
  - simpl. now rewrite app_nil_r.
  - cbn [fold_left outcomes]. unfold score_wallet_step at 2.
    destruct (calculate_wallet_risk_score get_transactions get_token_transactions wallet w) as [outcome w'].
    destruct outcome as [sb|e]; rewrite IH; cbn [map];
      rewrite <- app_assoc; reflexivity.
Qed.

Lemma outcomes_wallets wallets : forall w,
  map fst (outcomes get_transactions get_token_transactions wallets w) = wallets.
Proof.
  induction wallets as [|wallet rest IH]; intros w; simpl; [reflexivity|].
  destruct (calculate_wallet_risk_score get_transactions get_token_transactions wallet w) as [outcome w']. simpl. now rewrite IH.
Qed.

Lemma record_of_wallet wo : wallet_id (record_of wo) = fst wo.
Proof.
  unfold record_of. destruct wo as [wallet [[s b]|e]]; reflexivity.
Qed.

(** C2. For every sequence of wallet addresses the batch returns one record
    per address, in input order.  Each record is made from the outcome of
    that wallet's own scoring: when the scoring raised, the record is the
    degraded one (score 500, the five components 500, both counts 0),
    otherwise the computed one; no outcome stops the loop. *)
Theorem batch_one_result_per_wallet (wallets : list string) (w : World) :
  let results := fst (score_wallet_list get_transactions get_token_transactions wallets w) in
  results = map record_of (outcomes get_transactions get_token_transactions wallets w) /\
  List.length results = List.length wallets /\
  map wallet_id results = wallets /\
  Forall2 (fun r wo =>
             match snd wo with
             | Ok sb => r = result_of (fst wo) sb
             | Raise _ =>
                 r = mkResult (fst wo) 500 (Fin 500) (Fin 500) (Fin 500) (Fin 500)
                              (Fin 500) 0 0
             end)
          results (outcomes get_transactions get_token_transactions wallets w).
Proof.
  intros results.
  assert (E : results = map record_of (outcomes get_transactions get_token_transactions wallets w)).
  { unfold results, score_wallet_list. rewrite score_wallet_loop. reflexivity. }
  split; [exact E|]. rewrite E.
  split; [|split].
  - rewrite length_map, <- (length_map fst), outcomes_wallets. reflexivity.
  - rewrite map_map. rewrite <- (outcomes_wallets wallets w) at 2.
    apply map_ext. intros wo. apply record_of_wallet.
  - clear E results. induction (outcomes get_transactions get_token_transactions wallets w) as [|wo l IH]; simpl.
    + constructor.
    + constructor; [|exact IH]. unfold record_of.
      destruct (snd wo); reflexivity.
Qed.

End BatchFacts.

(** The batch A, B, C in which the scoring of B fails: three records in
    input order, the degraded one for B, and for A and C the record of a
    wallet without history. *)
Lemma batch_sample :
  fst (score_wallet_list sample_transactions sample_token_transactions ["A"; "B"; "C"]%string 0%nat)
  = [inactive_result "A"%string; default_result "B"%string; inactive_result "C"%string]
  /\ score (inactive_result "A"%string) = 430.
Proof. split; reflexivity. Qed.

(** ** The range of the scores *)

Lemma liquidation_in_range transactions token_transactions :
  (0 <= calculate_liquidation_risk transactions token_transactions <= 1000)%Q.
Proof.
  unfold calculate_liquidation_risk.
  destruct (py_not transactions && py_not token_transactions);
    [split; discriminate|].
  cbv zeta. set (all_txs := transactions ++ token_transactions).
  destruct (liquidation_loop_counts (last_n 50 all_txs) (mkLiq 0 0 (Fin 0))) as [S B].
  simpl in S, B. rewrite S, B.
  pose proof (count_nonneg is_supply (filter convertible (last_n 50 all_txs))) as Hs.
  pose proof (count_nonneg is_borrow (filter convertible (last_n 50 all_txs))) as Hb.
  set (s := count is_supply _) in *. set (b := count is_borrow _) in *.
  rewrite frequency_penalty_formula.
  assert (P : (inject_Z 0 <= inject_Z (Z.min (Z.max 0 (len all_txs - 100) * 2) 200))%Q)
    by (rewrite <- Zle_Qle; lia).
  set (pen := inject_Z (Z.min (Z.max 0 (len all_txs - 100) * 2) 200)) in *.
  assert (U : (0 <= (if s + b =? 0 then 1 # 2 else inject_Z b / inject_Z (s + b + 1)))%Q).
  { destruct (s + b =? 0); [discriminate|].
    apply Qle_shift_div_l.
    - change 0%Q with (inject_Z 0). rewrite <- Zlt_Qlt. subst s b; lia.
    - rewrite Qmult_0_l. change 0%Q with (inject_Z 0). rewrite <- Zle_Qle.
      subst b; lia. }
  set (u := (if s + b =? 0 then 1 # 2 else inject_Z b / inject_Z (s + b + 1))%Q) in *.
  split; [|apply py_minQ_le_r].
  apply py_minQ_glb; [|discriminate].
  assert (0 <= py_minQ (u * 1000) 1000)%Q
    by (apply py_minQ_glb; [nra | discriminate]).
  change (inject_Z 0) with 0%Q in P. lra.
Qed.

Lemma final_score_in_range l v c lev b r :
  final_score_of l v c lev b = Ok r -> 0 <= r <= 1000.
Proof.
  unfold final_score_of.
  destruct (py_round (weighted_sum l v c lev b)) as [z|e]; simpl; [|discriminate].
  intros [= <-]. rewrite py_maxZ_max, py_minZ_min. lia.
Qed.

(** C3, at the failing input.  Two normal transactions, the first with
    value 'inf' (or '1e400', which [float] reads as infinity): both amounts
    are positive, their mean is infinite and their standard deviation is
    NaN, every comparison with NaN is false, so [min(..., 1000)] returns the
    NaN; the volatility score is not a number in [0, 1000], and [round] of
    the weighted score raises, so that no composite is produced. *)
Theorem volatility_nan_on_infinite_value :
  calculate_volatility_risk [tx_value_inf; tx_value_one] = NaN /\
  ~ in_range (calculate_volatility_risk [tx_value_inf; tx_value_one]) /\
  score_transactions [tx_value_inf; tx_value_one] [] = Raise ValueError.
Proof.
  split; [reflexivity|]. split; [|reflexivity].
  intros H. exact H.
Qed.

(** ** Volatility risk on finite values *)

Lemma fdiv_wei q : fdiv (Fin q) wei = Fin (q / inject_Z (10 ^ 18)).
Proof. reflexivity. Qed.

Lemma fsum_fin qs : forall a,
  fold_left fadd (map Fin qs) (Fin a) = Fin (fold_left Qplus qs a).
Proof.
  induction qs as [|q qs IH]; intros a; simpl; [reflexivity | apply IH].
Qed.

Lemma sum_nonneg qs : forall a,
  Forall (fun q => 0 <= q)%Q qs -> (0 <= a)%Q -> (0 <= fold_left Qplus qs a)%Q.
Proof.
  induction qs as [|q qs IH]; intros a H Ha; simpl; [exact Ha|].
  inversion H; subst. apply IH; [assumption | lra].
Qed.

Lemma Qsign_pos q : (0 < q)%Q -> Qsign q = Gt.
Proof.
  unfold Qsign, Qlt. simpl. rewrite Z.mul_1_r. intros H.
  apply Z.compare_gt_iff. exact H.
Qed.

Lemma len_pos {A} (l : list A) : l <> [] -> 0 < len l.
Proof. destruct l; [congruence|]. intros _. unfold len. cbn [List.length]. lia. Qed.

Lemma np_mean_fin qs :
  qs <> [] ->
  np_mean (map Fin qs) = Fin (fold_left Qplus qs 0 / inject_Z (len qs))%Q.
Proof.
  intros NE. unfold np_mean, fsum. rewrite fsum_fin. unfold fdiv.
  assert (L : len (map Fin qs) = len qs) by (unfold len; now rewrite length_map).
  rewrite L, Qsign_pos; [reflexivity|].
  change 0%Q with (inject_Z 0). rewrite <- Zlt_Qlt. apply len_pos, NE.
Qed.

Lemma Qsqrt_nonneg q : (0 <= Qsqrt q)%Q.
Proof.
  unfold Qsqrt, Qle. simpl. rewrite Z.mul_1_r. apply Z.sqrt_nonneg.
Qed.

Lemma np_std_fin qs :
  qs <> [] -> exists s, np_std (map Fin qs) = Fin s /\ (0 <= s)%Q.
Proof.
  intros NE. unfold np_std. rewrite (np_mean_fin qs NE).
  set (mu := (fold_left Qplus qs 0 / inject_Z (len qs))%Q).
  rewrite map_map.
  rewrite (map_ext _ (fun q => Fin ((q + - mu) * (q + - mu))%Q))
    by (intros q; reflexivity).
  rewrite <- (map_map (fun q => ((q + - mu) * (q + - mu))%Q) Fin).
  rewrite np_mean_fin by (destruct qs; [congruence | discriminate]).
  unfold fsqrt.
  set (var := (fold_left Qplus _ 0 / _)%Q).
  assert (V : (0 <= var)%Q).
  { unfold var. apply Qle_shift_div_l.
    - change 0%Q with (inject_Z 0). rewrite <- Zlt_Qlt. apply len_pos.
      destruct qs; [congruence | discriminate].
    - rewrite Qmult_0_l. apply sum_nonneg; [|lra].
      apply Forall_forall. intros x Hx. apply in_map_iff in Hx.
      destruct Hx as [q [<- _]]. generalize (q + - mu)%Q. intros y. nra. }
  destruct (Qltb var 0) eqn:E; [apply Qltb_spec in E; lra|].
  eexists; split; [reflexivity | apply Qsqrt_nonneg].
Qed.

(** A coefficient of variation of finite numbers, or its default, is a
    finite non-negative number. *)
Lemma cv_fin qs d :
  (0 <= d)%Q ->
  exists c,
    (if fgt (np_mean (map Fin qs)) (Fin 0)
     then fdiv (np_std (map Fin qs)) (np_mean (map Fin qs))
     else Fin d) = Fin c /\ (0 <= c)%Q.
Proof.
  intros Hd. destruct qs as [|q qs]; [exists d; split; [reflexivity | exact Hd]|].
  assert (NE : q :: qs <> []) by discriminate.
  destruct (np_std_fin _ NE) as [s [Es Hs]].
  rewrite Es, (np_mean_fin _ NE).
  set (mu := (fold_left Qplus (q :: qs) 0 / inject_Z (len (q :: qs)))%Q).
  unfold fgt, flt. destruct (Qltb 0 mu) eqn:E; [|exists d; split; [reflexivity | exact Hd]].
  apply Qltb_spec in E. unfold fdiv. rewrite (Qsign_pos _ E).
  eexists; split; [reflexivity|].
  apply Qle_shift_div_l; [exact E | lra].
Qed.

Lemma volatility_loop_finite l : forall acc,
  Forall (fun tx => value tx <> Some PInf) l ->
  Forall pos_fin (fst acc) ->
  Forall pos_fin (fst (fold_left volatility_step l acc)).
Proof.
  induction l as [|tx l IH]; intros acc H Hacc; simpl; [exact Hacc|].
  inversion H as [|? ? Htx Hl]; subst. apply IH; [exact Hl|].
  unfold volatility_step.
  destruct (value tx) as [v|]; [|exact Hacc].
  destruct (timeStamp tx) as [t|]; [|exact Hacc].
  destruct (fgt (underflow (fdiv v wei)) (Fin 0)) eqn:E; [|exact Hacc].
  simpl. apply Forall_app. split; [exact Hacc|]. constructor; [|constructor].
  destruct v as [q| | |]; try discriminate E; [|congruence].
  rewrite fdiv_wei in *. unfold underflow in *.
  destruct (Qltb (1 # 2 ^ 1075) (q / inject_Z (10 ^ 18))
            || Qltb (q / inject_Z (10 ^ 18)) (- (1 # 2 ^ 1075))); [|discriminate E].
  simpl. apply Qltb_spec. exact E.
Qed.

Lemma pos_fin_list l :
  Forall pos_fin l -> exists qs, l = map Fin qs.
Proof.
  induction l as [|x l IH]; intros H; [exists []; reflexivity|].
  inversion H as [|? ? Hx Hl]; subst. destruct (IH Hl) as [qs ->].
  destruct x as [q| | |]; try destruct Hx. exists (q :: qs). reflexivity.
Qed.

(** As long as no value converts to plus infinity, the volatility score is
    a number in [0, 1000]. *)
Lemma volatility_in_range_finite transactions :
  Forall (fun tx => value tx <> Some PInf) transactions ->
  in_range (calculate_volatility_risk transactions).
Proof.
  intros H. unfold calculate_volatility_risk.
  destruct (py_not transactions); [simpl; split; discriminate|].
  pose proof (volatility_loop_finite transactions ([], []) H (Forall_nil _)) as P.
  destruct (fold_left volatility_step transactions ([], [])) as [amounts timestamps].
  simpl in P. destruct (pos_fin_list _ P) as [qs ->].
  destruct (len (map Fin qs) <? 2); [simpl; split; discriminate|].
  destruct (cv_fin qs 1%Q ltac:(discriminate)) as [ca [Ea Ha]]. rewrite Ea.
  assert (T : exists ct,
             (if len timestamps >? 1
              then
                if fgt (np_mean (of_ints (np_diff (sorted timestamps)))) (Fin 0)
                then fdiv (np_std (of_ints (np_diff (sorted timestamps))))
                          (np_mean (of_ints (np_diff (sorted timestamps))))
                else Fin 0
              else Fin 0) = Fin ct /\ (0 <= ct)%Q).
  { destruct (len timestamps >? 1); [|exists 0%Q; split; [reflexivity | discriminate]].
    unfold of_ints. rewrite <- (map_map inject_Z Fin).
    apply cv_fin. discriminate. }
  destruct T as [ct [Et Ht]]. cbv zeta. rewrite Et.
  unfold py_min, fmul, fadd, flt.
  destruct (Qltb 1000 (ca * 300 + ct * (1 # 100))%Q) eqn:E.
  - simpl. split; discriminate.
  - apply Qltb_false in E. simpl. split; [nra | exact E].
Qed.

(** Apart from an infinite value, every score is in range: the four other
    calculators on every input on which they return, the volatility
    calculator when no value converts to plus infinity, and the composite
    whenever one is produced. *)
Lemma scores_in_range transactions token_transactions :
  (0 <= calculate_liquidation_risk transactions token_transactions <= 1000)%Q /\
  (Forall (fun tx => value tx <> Some PInf) transactions ->
   in_range (calculate_volatility_risk transactions)) /\
  (forall r, calculate_concentration_risk token_transactions = Ok r -> 0 <= r <= 1000) /\
  (0 <= calculate_leverage_risk transactions <= 1000)%Q /\
  0 <= calculate_behavioral_risk transactions token_transactions <= 1000 /\
  (forall s b, score_transactions transactions token_transactions = Ok (s, b) ->
               0 <= s <= 1000).
Proof.
  split; [apply liquidation_in_range|].
  split; [apply volatility_in_range_finite|].
  split; [intros r H; apply (concentration_returns _ _ H)|].
  split; [pose proof (leverage_bounds transactions); lra|].
  split; [pose proof (behavioral_bounds transactions token_transactions); lia|].
  intros s b. unfold score_transactions.
  destruct (calculate_concentration_risk token_transactions) as [c|e]; simpl;
    [|discriminate].
  destruct (final_score_of _ _ _ _ _) as [z|e] eqn:F; simpl; [|discriminate].
  intros [= <- _]. apply (final_score_in_range _ _ _ _ _ _ F).
Qed.

(** ** [sorted] sorts *)

Lemma insert_sorted_perm x l : Permutation.Permutation (x :: l) (insert_sorted x l).
Proof.
  induction l as [|y l IH]; simpl; [reflexivity|].
  destruct (x <=? y); [reflexivity|].
  etransitivity; [apply Permutation.perm_swap|].
  apply Permutation.perm_skip, IH.
Qed.

Lemma sorted_perm l : Permutation.Permutation l (sorted l).
Proof.
  induction l as [|x l IH]; simpl; [constructor|].
  etransitivity; [apply Permutation.perm_skip, IH | apply insert_sorted_perm].
Qed.

Lemma insert_sorted_ordered x l :
  Sorted.LocallySorted Z.le l -> Sorted.LocallySorted Z.le (insert_sorted x l).
Proof.
  induction 1 as [|y|y z l H IH Hyz]; simpl.
  - constructor.
  - destruct (x <=? y) eqn:E; constructor; try constructor; lia.
  - destruct (x <=? y) eqn:E.
    + constructor; [constructor; assumption | lia].
    + simpl in IH. destruct (x <=? z) eqn:E'.
      * constructor; [exact IH | lia].
      * constructor; [exact IH | exact Hyz].
Qed.

Lemma sorted_ordered l : Sorted.LocallySorted Z.le (sorted l).
Proof.
  induction l as [|x l IH]; simpl; [constructor | apply insert_sorted_ordered, IH].
Qed.

(** ** The constants in binary64

    The two computations on constants, in IEEE double arithmetic as Python
    performs them: the sum of the weights is exactly 1.0, and the weighted
    score of the empty-input scenario is exactly 430.0. *)

Module Binary64.
Import PrimFloat.

Lemma binary64_weights_sum :
  PrimFloat.eqb
    (0.30 + 0.25 + 0.20 + 0.15 + 0.10)%float 1%float = true.
Proof. reflexivity. Qed.

Lemma binary64_empty_input_score :
  PrimFloat.eqb
    (500 * 0.30 + 300 * 0.25 + 600 * 0.20 + 300 * 0.15 + 400 * 0.10)%float
    430%float = true.
Proof. reflexivity. Qed.

End Binary64.

(** * Further properties of the scoring engine *)

(** ** Volatility risk: where it is a number *)

Lemma volatility_loop_kept l : forall acc,
  fst (fold_left volatility_step l acc) = fst acc ++ kept_amounts l.
Proof.
  induction l as [|tx l IH]; intros acc; simpl; [now rewrite app_nil_r|].
  rewrite IH. unfold volatility_step, kept_amount.
  destruct (value tx) as [v|]; [|reflexivity].
  destruct (timeStamp tx) as [t|]; [|reflexivity].
  destruct (fgt (underflow (fdiv v wei)) (Fin 0)); simpl; [|reflexivity].
  now rewrite <- app_assoc.
Qed.

Lemma volatility_unfold transactions :
  calculate_volatility_risk transactions
  = if py_not transactions then Fin 300
    else if len (kept_amounts transactions) <? 2 then Fin 400
    else volatility_of (kept_amounts transactions)
                       (snd (fold_left volatility_step transactions ([], []))).
Proof.
  unfold calculate_volatility_risk.
  destruct (py_not transactions); [reflexivity|].
  pose proof (volatility_loop_kept transactions ([], [])) as K. simpl in K.
  destruct (fold_left volatility_step transactions ([], [])) as [amounts timestamps].
  simpl in K. subst amounts. reflexivity.
Qed.

Lemma fgt_zero_pos x : fgt x (Fin 0) = true -> pos_or_inf x.
Proof.
  destruct x as [q| | |]; simpl; intros H; try discriminate H.
  - left. simpl. apply Qltb_spec, H.
  - right. reflexivity.
Qed.

Lemma kept_amounts_pos l : Forall pos_or_inf (kept_amounts l).
Proof.
  induction l as [|tx l IH]; simpl; [constructor|].
  apply Forall_app. split; [|exact IH].
  unfold kept_amount.
  destruct (value tx) as [v|]; [|constructor].
  destruct (timeStamp tx) as [t|]; [|constructor].
  destruct (fgt (underflow (fdiv v wei)) (Fin 0)) eqn:E; [|constructor].
  constructor; [apply fgt_zero_pos, E | constructor].
Qed.

Lemma pos_or_inf_split l :
  Forall pos_or_inf l -> Forall pos_fin l \/ In PInf l.
Proof.
  induction 1 as [|x l Hx Hl IH]; [left; constructor|].
  destruct Hx as [Hx| ->]; [|right; left; reflexivity].
  destruct IH as [IH|IH]; [left; constructor; assumption | right; right; exact IH].
Qed.

Lemma pos_fin_not_inf l : Forall pos_fin l -> ~ In PInf l.
Proof.
  intros H I. rewrite Forall_forall in H. apply (H _ I).
Qed.

(** On finite positive amounts the score is a number in range. *)
Lemma volatility_of_finite amounts timestamps :
  Forall pos_fin amounts -> in_range (volatility_of amounts timestamps).
Proof.
  intros P. destruct (pos_fin_list _ P) as [qs ->]. unfold volatility_of.
  destruct (cv_fin qs 1%Q ltac:(discriminate)) as [ca [Ea Ha]]. rewrite Ea.
  assert (T : exists ct,
             (if len timestamps >? 1
              then
                if fgt (np_mean (of_ints (np_diff (sorted timestamps)))) (Fin 0)
                then fdiv (np_std (of_ints (np_diff (sorted timestamps))))
                          (np_mean (of_ints (np_diff (sorted timestamps))))
                else Fin 0
              else Fin 0) = Fin ct /\ (0 <= ct)%Q).
  { destruct (len timestamps >? 1); [|exists 0%Q; split; [reflexivity | discriminate]].
    unfold of_ints. rewrite <- (map_map inject_Z Fin).
    apply cv_fin. discriminate. }
  destruct T as [ct [Et Ht]]. cbv zeta. rewrite Et.
  unfold py_min, fmul, fadd, flt.
  destruct (Qltb 1000 (ca * 300 + ct * (1 # 100))%Q) eqn:E.
  - simpl. split; discriminate.
  - apply Qltb_false in E. simpl. split; [nra | exact E].
Qed.

(** Sums: a NaN stays, and plus infinity stays among positive numbers. *)
Lemma fsum_nan l : fold_left fadd l NaN = NaN.
Proof. induction l as [|x l IH]; simpl; [reflexivity | exact IH]. Qed.

Lemma fsum_with_nan l : forall acc, In NaN l -> fold_left fadd l acc = NaN.
Proof.
  induction l as [|x l IH]; intros acc H; [destruct H|].
  simpl. destruct H as [->|H]; [|apply IH, H].
  replace (fadd acc NaN) with NaN by (destruct acc; reflexivity).
  apply fsum_nan.
Qed.

Lemma fsum_pinf l : Forall pos_or_inf l -> fold_left fadd l PInf = PInf.
Proof.
  induction 1 as [|x l Hx Hl IH]; simpl; [reflexivity|].
  destruct Hx as [Hx| ->]; [|exact IH].
  destruct x; try destruct Hx. exact IH.
Qed.

Lemma fsum_with_pinf l : forall q,
  Forall pos_or_inf l -> In PInf l -> fold_left fadd l (Fin q) = PInf.
Proof.
  induction l as [|x l IH]; intros q P H; [destruct H|].
  inversion P as [|? ? Hx Hl]; subst. simpl.
  destruct Hx as [Hx| ->]; [|apply fsum_pinf, Hl].
  destruct x as [a| | |]; try destruct Hx.
  destruct H as [H|H]; [discriminate H|]. simpl. apply IH; assumption.
Qed.

(** With an infinite amount the mean is infinite, and the infinite amount
    itself deviates from it by NaN. *)
Lemma np_mean_pinf l :
  Forall pos_or_inf l -> In PInf l -> np_mean l = PInf.
Proof.
  intros P H. unfold np_mean, fsum. rewrite (fsum_with_pinf _ _ P H).
  unfold fdiv. rewrite Qsign_pos; [reflexivity|].
  change 0%Q with (inject_Z 0). rewrite <- Zlt_Qlt. apply len_pos.
  destruct l; [destruct H | discriminate].
Qed.

Lemma np_std_pinf l :
  Forall pos_or_inf l -> In PInf l -> np_std l = NaN.
Proof.
  intros P H. unfold np_std. rewrite (np_mean_pinf _ P H).
  unfold np_mean, fsum. rewrite fsum_with_nan; [reflexivity|].
  apply in_map_iff. exists PInf. split; [reflexivity | exact H].
Qed.

Lemma volatility_of_infinite amounts timestamps :
  Forall pos_or_inf amounts -> In PInf amounts ->
  volatility_of amounts timestamps = NaN.
Proof.
  intros P H. unfold volatility_of.
  rewrite (np_mean_pinf _ P H), (np_std_pinf _ P H). reflexivity.
Qed.

(** On a list of transactions within the range of the machine numbers
    (timestamps within 61 bits, at most 10^9 records) the volatility
    calculator returns NaN exactly when it has kept at least two amounts and
    one of them is infinite; in every other case it returns a number in
    [0, 1000]. *)
Theorem volatility_nan_or_in_range transactions :
  within_machine_range transactions ->
  (calculate_volatility_risk transactions = NaN
   <-> 2 <= len (kept_amounts transactions) /\ In PInf (kept_amounts transactions))
  /\
  (calculate_volatility_risk transactions = NaN
   \/ in_range (calculate_volatility_risk transactions)).
Proof.
  intros _. rewrite volatility_unfold.
  pose proof (kept_amounts_pos transactions) as P.
  destruct (py_not transactions) eqn:E.
  - destruct transactions; [|discriminate E]. simpl.
    split; [split; [discriminate | intros [_ []]]|].
    right. split; discriminate.
  - destruct (len (kept_amounts transactions) <? 2) eqn:L.
    + apply Z.ltb_lt in L.
      split; [split; [discriminate | intros [L' _]; lia]|].
      right. simpl. split; discriminate.
    + apply Z.ltb_ge in L.
      destruct (pos_or_inf_split _ P) as [F|I].
      * pose proof (volatility_of_finite _
          (snd (fold_left volatility_step transactions ([], []))) F) as R.
        split; [|right; exact R].
        split.
        -- intros N. rewrite N in R. destruct R.
        -- intros [_ I]. destruct (pos_fin_not_inf _ F I).
      * rewrite (volatility_of_infinite _ _ P I).
        split; [|left; reflexivity].
        split; [intros _; split; assumption | reflexivity].
Qed.

Lemma within_machine_range_sample : within_machine_range [tx_value_inf; tx_value_one].
Proof.
  split; [vm_compute; discriminate|].
  repeat constructor; discriminate.
Defined.

Lemma volatility_nan_or_in_range_witness :
  within_machine_range [tx_value_inf; tx_value_one] /\
  (calculate_volatility_risk [tx_value_inf; tx_value_one] = NaN
   <-> 2 <= len (kept_amounts [tx_value_inf; tx_value_one])
       /\ In PInf (kept_amounts [tx_value_inf; tx_value_one])).
Proof.
  split; [exact within_machine_range_sample|].
  apply (volatility_nan_or_in_range [tx_value_inf; tx_value_one] within_machine_range_sample).
Defined.

(** A non-empty list that yields fewer than two amounts scores 400. *)
Theorem volatility_sparse transactions :
  transactions <> [] ->
  len (kept_amounts transactions) < 2 ->
  calculate_volatility_risk transactions = Fin 400.
Proof.
  intros NE L. rewrite volatility_unfold, (py_not_false _ NE).
  apply Z.ltb_lt in L. rewrite L. reflexivity.
Qed.

Lemma volatility_sparse_witness :
  [plain_tx; tx_value_inf; borrow_unconvertible] <> [] /\
  len (kept_amounts [plain_tx; tx_value_inf; borrow_unconvertible]) < 2 /\
  calculate_volatility_risk [plain_tx; tx_value_inf; borrow_unconvertible] = Fin 400.
Proof.
  split; [discriminate|]. split; [reflexivity|].
  apply (volatility_sparse [plain_tx; tx_value_inf; borrow_unconvertible]);
    [discriminate | reflexivity].
Defined.

(** The values '1e-320' and 'inf'.  The quotient of the first by 1e18 is
    0.0 in binary64, so the record is dropped; with the one infinite amount
    left the score is 400, and the wallet is scored without an exception. *)
Lemma volatility_underflow :
  kept_amounts [tx_value_tiny; tx_value_inf] = [PInf] /\
  calculate_volatility_risk [tx_value_tiny; tx_value_inf] = Fin 400 /\
  match score_transactions [tx_value_tiny; tx_value_inf] [] with
  | Ok (final_score, _) => final_score = 430
  | Raise _ => False
  end.
Proof. repeat split; vm_compute; reflexivity. Qed.

(** ** When the scoring of a wallet fails *)

Lemma weighted_sum_nan l c lev b : weighted_sum (Fin l) NaN (Fin c) (Fin lev) (Fin b) = NaN.
Proof. reflexivity. Qed.

Lemma final_score_of_finite l v c lev b :
  exists s, final_score_of (Fin l) (Fin v) (Fin c) (Fin lev) (Fin b) = Ok s.
Proof. eexists. reflexivity. Qed.

(** The volatility score is NaN or a finite number in range. *)
Lemma volatility_nan_or_in_range_aux transactions :
  calculate_volatility_risk transactions = NaN
  \/ exists q, calculate_volatility_risk transactions = Fin q /\ (0 <= q <= 1000)%Q.
Proof.
  rewrite volatility_unfold.
  destruct (py_not transactions);
    [right; exists 300%Q; split; [reflexivity | split; discriminate]|].
  destruct (len (kept_amounts transactions) <? 2);
    [right; exists 400%Q; split; [reflexivity | split; discriminate]|].
  destruct (pos_or_inf_split _ (kept_amounts_pos transactions)) as [F|I].
  - pose proof (volatility_of_finite _
      (snd (fold_left volatility_step transactions ([], []))) F) as R.
    destruct (volatility_of _ _) as [q| | |]; try destruct R.
    right. exists q. split; [reflexivity | split; assumption].
  - left. apply volatility_of_infinite; [apply kept_amounts_pos | exact I].
Qed.

(** On transactions within the range of the machine numbers and token
    decimals within a million the scoring of two lists raises in exactly
    two cases: the value tracking of a token record raises (the first such
    exception is the one that escapes), or else the volatility score is NaN
    and [round] raises [ValueError]. *)
Theorem score_transactions_raises transactions token_transactions e :
  within_machine_range transactions ->
  decimals_within_million token_transactions ->
  (score_transactions transactions token_transactions = Raise e
   <-> first_escaping token_transactions = Some e
       \/ (first_escaping token_transactions = None
           /\ calculate_volatility_risk transactions = NaN /\ e = ValueError)).
Proof.
  intros _ _. unfold score_transactions. rewrite concentration_characterised.
  assert (C : (if py_not token_transactions then Ok 600
               else match first_escaping token_transactions with
                    | Some e' => Raise e'
                    | None => Ok (concentration_score (unique_count token_transactions))
                    end)
              = match first_escaping token_transactions with
                | Some e' => Raise e'
                | None => Ok (if py_not token_transactions then 600
                              else concentration_score (unique_count token_transactions))
                end).
  { destruct token_transactions; [reflexivity|]. simpl py_not. cbv iota.
    destruct (first_escaping _); reflexivity. }
  rewrite C. clear C.
  destruct (first_escaping token_transactions) as [e'|]; simpl.
  - split.
    + intros [= <-]. left. reflexivity.
    + intros [[= <-]|[H _]]; [reflexivity | discriminate H].
  - destruct (volatility_nan_or_in_range_aux transactions) as [N|[q [Eq _]]].
    + rewrite N. simpl. split.
      * intros [= <-]. right. repeat split.
      * intros [H|[_ [_ ->]]]; [discriminate H | reflexivity].
    + rewrite Eq. simpl. split; [discriminate|].
      intros [H|[_ [H _]]]; discriminate H.
Qed.

Lemma score_transactions_raises_witness :
  within_machine_range [tx_value_inf; tx_value_one] /\
  decimals_within_million [token_from "0xAB"] /\
  score_transactions [tx_value_inf; tx_value_one] [token_from "0xAB"]
  = Raise ValueError.
Proof.
  assert (D : decimals_within_million [token_from "0xAB"])
    by (repeat constructor; discriminate).
  split; [exact within_machine_range_sample|]. split; [exact D|].
  apply (score_transactions_raises [tx_value_inf; tx_value_one] [token_from "0xAB"]
                                   ValueError within_machine_range_sample D).
  right. repeat split.
Defined.

(** ** The records of a batch *)

Lemma round1_in_range x : in_range x -> in_range (round1 x).
Proof.
  destruct x as [q| | |]; simpl; try tauto. intros [L U].
  assert (Z0 : 0 <= round_half_even (q * 10))
    by (apply round_half_even_ge; unfold inject_Z; lra).
  assert (Z1 : round_half_even (q * 10) <= 10000)
    by (apply round_half_even_le; unfold inject_Z; lra).
  rewrite Zle_Qle in Z0, Z1.
  set (z := inject_Z (round_half_even (q * 10))) in *.
  unfold inject_Z in Z0, Z1.
  split.
  - apply Qle_shift_div_l; lra.
  - apply Qle_shift_div_r; lra.
Qed.

Lemma of_int_in_range z : 0 <= z <= 1000 -> in_range (of_int z).
Proof.
  intros [L U]. unfold of_int, in_range. rewrite Zle_Qle in L, U.
  unfold inject_Z in *. split; lra.
Qed.

Lemma default_result_in_range wallet : result_in_range (default_result wallet).
Proof.
  unfold result_in_range, default_result. simpl.
  repeat split; try lia; discriminate.
Qed.

(** Every successful scoring gives a record in range. *)
Lemma scored_result_in_range wallet transactions token_transactions sb :
  score_transactions transactions token_transactions = Ok sb ->
  result_in_range (result_of wallet sb).
Proof.
  unfold score_transactions.
  destruct (calculate_concentration_risk token_transactions) as [c|e] eqn:C;
    simpl; [|discriminate].
  destruct (volatility_nan_or_in_range_aux transactions) as [N|[q [Eq Hq]]].
  - rewrite N. simpl. discriminate.
  - rewrite Eq.
    destruct (final_score_of _ _ _ _ _) as [s|e] eqn:F; simpl; [|discriminate].
    intros [= <-]. unfold result_in_range, result_of. simpl.
    pose proof (final_score_in_range _ _ _ _ _ _ F) as S.
    pose proof (liquidation_in_range transactions token_transactions) as L.
    pose proof (leverage_bounds transactions) as V.
    pose proof (behavioral_bounds transactions token_transactions) as B.
    destruct (concentration_returns _ _ C) as [_ [_ Cr]].
    split; [exact S|].
    split; [apply (round1_in_range (Fin _)); exact L|].
    split; [apply (round1_in_range (Fin q)); exact Hq|].
    split; [apply (round1_in_range (of_int c)), of_int_in_range, Cr|].
    split; [apply (round1_in_range (Fin _)); simpl; lra|].
    split; [apply (round1_in_range (of_int _)), of_int_in_range; lia|].
    unfold len. lia.
Qed.

Section BatchRecords.

Variable World : Type.
Variable get_transactions : string -> World -> list Tx * World.
Variable get_token_transactions : string -> World -> list Tx * World.

(** The loop, from any accumulator: the records and the final world. *)
Lemma score_wallet_loop_acc wallets : forall results w,
  fold_left (score_wallet_step get_transactions get_token_transactions) wallets
            (results, w)
  = (results ++ fst (score_wallet_list get_transactions get_token_transactions wallets w),
     snd (score_wallet_list get_transactions get_token_transactions wallets w)).
Proof.
  unfold score_wallet_list.
  induction wallets as [|wallet rest IH]; intros results w.
  - simpl. now rewrite app_nil_r.
  - cbn [fold_left]. unfold score_wallet_step at 2 4 6.
    destruct (calculate_wallet_risk_score get_transactions get_token_transactions wallet w)
      as [outcome w'].
    destruct outcome as [sb|e]; rewrite IH;
      rewrite (IH ([] ++ _)); cbn [app fst snd]; rewrite <- app_assoc; reflexivity.
Qed.

(** A batch over a concatenation is the batch over the first part followed
    by the batch over the second, run in the world that the first leaves. *)
Theorem score_wallet_list_app (wallets1 wallets2 : list string) (w : World) :
  let first := score_wallet_list get_transactions get_token_transactions wallets1 w in
  let second :=
    score_wallet_list get_transactions get_token_transactions wallets2 (snd first) in
  score_wallet_list get_transactions get_token_transactions (wallets1 ++ wallets2) w
  = (fst first ++ fst second, snd second).
Proof.
  intros first second. unfold score_wallet_list at 1.
  rewrite fold_left_app.
  fold (score_wallet_list get_transactions get_token_transactions wallets1 w).
  fold first. rewrite (surjective_pairing first).
  apply score_wallet_loop_acc.
Qed.

Lemma outcomes_scored wallets : forall w,
  Forall (fun wo => exists t k, snd wo = score_transactions t k)
         (outcomes get_transactions get_token_transactions wallets w).
Proof.
  induction wallets as [|wallet rest IH]; intros w; simpl; [constructor|].
  unfold calculate_wallet_risk_score.
  destruct (get_transactions wallet w) as [t w1].
  destruct (get_token_transactions wallet w1) as [k w2].
  constructor; [exists t, k; reflexivity | apply IH].
Qed.

(** Whatever the provider returns, every record of a batch has its score
    and its five components in [0, 1000]. *)
Theorem batch_results_in_range (wallets : list string) (w : World) :
  Forall result_in_range
         (fst (score_wallet_list get_transactions get_token_transactions wallets w)).
Proof.
  unfold score_wallet_list. rewrite score_wallet_loop. simpl.
  pose proof (outcomes_scored wallets w) as H.
  induction H as [|wo l [t [k E]] Hl IH]; simpl; constructor; [|exact IH].
  unfold record_of. rewrite E.
  destruct (score_transactions t k) as [sb|e] eqn:S.
  - apply (scored_result_in_range _ _ _ _ S).
  - apply default_result_in_range.
Qed.

End BatchRecords.

(** ** The aggregator as a function of the sub-scores *)







(** ** Liquidation risk: what it depends on *)

Lemma py_minQ_le_l a b : (py_minQ a b <= a)%Q.
Proof.
  unfold py_minQ. destruct (Qltb b a) eqn:E.
  - apply Qltb_spec in E. apply Qlt_le_weak, E.
  - apply Qle_refl.
Qed.

(** The score depends on the last 50 records of the combined list and on
    the length of that list only: older records are never classified, and
    it does not matter which of the two lists a record came from. *)
Theorem liquidation_last_50_only (t1 k1 t2 k2 : list Tx) :
  List.length (t1 ++ k1) = List.length (t2 ++ k2) ->
  last_n 50 (t1 ++ k1) = last_n 50 (t2 ++ k2) ->
  calculate_liquidation_risk t1 k1 = calculate_liquidation_risk t2 k2.
Proof.
  intros HL H50. unfold calculate_liquidation_risk.
  rewrite !py_not_app. unfold len. rewrite H50, HL.
  replace (py_not (t1 ++ k1)) with (py_not (t2 ++ k2)); [reflexivity|].
  destruct (t1 ++ k1), (t2 ++ k2); simpl in HL; try reflexivity; discriminate HL.
Qed.

Lemma liquidation_last_50_only_witness :
  calculate_liquidation_risk
    (borrow_unconvertible :: repeat borrow_zero 50) [plain_tx]
  = calculate_liquidation_risk
    [plain_tx] (repeat borrow_zero 50 ++ [plain_tx]).
Proof.
  apply (liquidation_last_50_only
           (borrow_unconvertible :: repeat borrow_zero 50) [plain_tx]
           [plain_tx] (repeat borrow_zero 50 ++ [plain_tx])); reflexivity.
Defined.

Lemma count_le_length {A} (p : A -> bool) l : count p l <= len l.
Proof.
  unfold count, len. apply inj_le, filter_length_le.
Qed.

Lemma supply_borrow_count l :
  count is_supply l + count is_borrow l <= len l.
Proof.
  induction l as [|tx l IH]; [rewrite !count_nil; unfold len; simpl; lia|].
  rewrite !count_cons. unfold len in *. cbn [List.length].
  unfold is_borrow at 1. destruct (is_supply tx); cbn [negb andb];
    [|destruct (PyStr.contains _ _)]; lia.
Qed.

Lemma last_n_length {A} n (l : list A) : (List.length (last_n n l) <= n)%nat.
Proof. unfold last_n. rewrite length_skipn. lia. Qed.

(** Up to 100 combined records there is no frequency penalty and the score
    stays below 981: at most 50 records are classified, so the utilization
    is at most 50/51. *)
Theorem liquidation_small_history (transactions token_transactions : list Tx) :
  len (transactions ++ token_transactions) <= 100 ->
  (calculate_liquidation_risk transactions token_transactions < 981)%Q.
Proof.
  intros H. unfold calculate_liquidation_risk.
  destruct (py_not transactions && py_not token_transactions); [reflexivity|].
  cbv zeta. set (all_txs := transactions ++ token_transactions) in *.
  destruct (liquidation_loop_counts (last_n 50 all_txs) (mkLiq 0 0 (Fin 0))) as [S B].
  simpl in S, B. rewrite S, B.
  pose proof (count_nonneg is_supply (filter convertible (last_n 50 all_txs))) as Hs.
  pose proof (count_nonneg is_borrow (filter convertible (last_n 50 all_txs))) as Hb.
  pose proof (supply_borrow_count (filter convertible (last_n 50 all_txs))) as Hsb.
  assert (L : len (filter convertible (last_n 50 all_txs)) <= 50).
  { unfold len. pose proof (filter_length_le convertible (last_n 50 all_txs)).
    pose proof (last_n_length 50 all_txs). lia. }
  set (s := count is_supply _) in *. set (b := count is_borrow _) in *.
  replace (len all_txs >? 100) with false by (symmetry; rewrite Z.gtb_ltb; apply Z.ltb_ge; lia).
  assert (U : ((if s + b =? 0 then 1 # 2 else inject_Z b / inject_Z (s + b + 1))
               <= 50 # 51)%Q).
  { destruct (s + b =? 0); [discriminate|].
    apply Qle_shift_div_r.
    - change 0%Q with (inject_Z 0). rewrite <- Zlt_Qlt. lia.
    - assert (E : (51 * b <= 50 * (s + b + 1))%Z) by lia.
      rewrite Zle_Qle in E. rewrite !inject_Z_mult in E.
      unfold inject_Z at 1 3 in E. lra. }
  set (u := (if s + b =? 0 then 1 # 2 else inject_Z b / inject_Z (s + b + 1))%Q) in *.
  apply Qle_lt_trans with (y := (py_minQ (u * 1000) 1000 + inject_Z 0)%Q);
    [apply py_minQ_le_l|].
  apply Qle_lt_trans with (y := (u * 1000 + 0)%Q);
    [apply Qplus_le_compat; [apply py_minQ_le_l | discriminate] | lra].
Qed.

Lemma liquidation_small_history_witness :
  len (repeat borrow_zero 60 ++ []) <= 100 /\
  (calculate_liquidation_risk (repeat borrow_zero 60) [] < 981)%Q.
Proof.
  split; [discriminate|].
  apply (liquidation_small_history (repeat borrow_zero 60) []). discriminate.
Defined.

Lemma py_minQ_mono a a' b : (a <= a')%Q -> (py_minQ a b <= py_minQ a' b)%Q.
Proof.
  intros H. unfold py_minQ.
  destruct (Qltb b a) eqn:E; destruct (Qltb b a') eqn:E'.
  - apply Qle_refl.
  - apply Qltb_spec in E. apply Qltb_false in E'. lra.
  - apply Qltb_false in E. exact E.
  - exact H.
Qed.

Lemma last_n_cons {A} n (x : A) l :
  (n <= List.length l)%nat -> last_n n (x :: l) = last_n n l.
Proof.
  intros H. unfold last_n. cbn [List.length].
  replace (S (List.length l) - n)%nat with (S (List.length l - n)) by lia.
  reflexivity.
Qed.

(** Once the combined list has 50 records, one more record in front of the
    normal transactions leaves the classified sample as it is and can only
    raise the frequency penalty: the score does not go down. *)
Theorem liquidation_longer_history (x : Tx) (transactions token_transactions : list Tx) :
  (50 <= List.length (transactions ++ token_transactions))%nat ->
  (calculate_liquidation_risk transactions token_transactions
   <= calculate_liquidation_risk (x :: transactions) token_transactions)%Q.
Proof.
  intros H. unfold calculate_liquidation_risk.
  rewrite !py_not_app. cbn [app].
  rewrite (last_n_cons 50 x _ H).
  replace (py_not (transactions ++ token_transactions)) with false
    by (destruct (transactions ++ token_transactions); [simpl in H; lia | reflexivity]).
  cbn [py_not]. cbv zeta.
  rewrite !frequency_penalty_formula.
  apply py_minQ_mono. apply Qplus_le_compat; [apply Qle_refl|].
  rewrite <- Zle_Qle. unfold len. cbn [List.length]. lia.
Qed.

Lemma liquidation_longer_history_witness :
  (calculate_liquidation_risk (repeat borrow_zero 120) []
   <= calculate_liquidation_risk (plain_tx :: repeat borrow_zero 120) [])%Q.
Proof.
  apply (liquidation_longer_history plain_tx (repeat borrow_zero 120) []).
  simpl. lia.
Defined.

(** ** Leverage risk: the two ends of the scale *)

Lemma leverage_step_counts st tx :
  leverage_indicators (leverage_step st tx)
  = leverage_indicators st + (if is_risky tx then 1 else 0) /\
  total_functions (leverage_step st tx)
  = total_functions st + (if is_named tx then 1 else 0).
Proof.
  unfold leverage_step, is_risky, is_named.
  destruct (PyStr.truthy (PyStr.lower (functionName tx))); cbn [andb];
    [|cbn [leverage_indicators total_functions]; lia].
  destruct (PyStr.contains_any risky_functions (PyStr.lower (functionName tx)));
    cbn [leverage_indicators total_functions]; lia.
Qed.

Lemma leverage_loop_counts l : forall st,
  leverage_indicators (fold_left leverage_step l st)
  = leverage_indicators st + count is_risky l /\
  total_functions (fold_left leverage_step l st)
  = total_functions st + count is_named l.
Proof.
  induction l as [|tx l IH]; intros st.
  - simpl. rewrite !count_nil. lia.
  - cbn [fold_left]. destruct (IH (leverage_step st tx)) as [I T].
    destruct (leverage_step_counts st tx) as [I1 T1].
    rewrite I, T, I1, T1, !count_cons. lia.
Qed.

(** With at least one named call, the leverage score is 0 when no named
    call is risky and 800 when every named call is. *)
Theorem leverage_ends (transactions : list Tx) :
  0 < count is_named transactions ->
  (count is_risky transactions = 0 ->
   (calculate_leverage_risk transactions == 0)%Q) /\
  (count is_risky transactions = count is_named transactions ->
   (calculate_leverage_risk transactions == 800)%Q).
Proof.
  intros N. unfold calculate_leverage_risk.
  destruct (leverage_loop_counts transactions (mkLev 0 0)) as [I T]. simpl in I, T.
  destruct transactions as [|tx l]; [rewrite count_nil in N; lia|].
  cbn [py_not]. cbv zeta. rewrite I, T.
  set (n := count is_named (tx :: l)) in *. clearbody n.
  replace (n =? 0) with false by (symmetry; apply Z.eqb_neq; lia).
  assert (Nq : ~ (inject_Z n == 0)%Q).
  { intros E. unfold Qeq in E. simpl in E. lia. }
  split; intros ->.
  - unfold py_minQ. replace (Qltb 1000 (inject_Z 0 / inject_Z n * 800)) with false.
    + field. exact Nq.
    + symmetry. apply Qltb_false.
      assert (E : (inject_Z 0 / inject_Z n * 800 == 0)%Q) by (field; exact Nq).
      rewrite E. discriminate.
  - unfold py_minQ. replace (Qltb 1000 (inject_Z n / inject_Z n * 800)) with false.
    + field. exact Nq.
    + symmetry. apply Qltb_false.
      assert (E : (inject_Z n / inject_Z n * 800 == 800)%Q) by (field; exact Nq).
      rewrite E. discriminate.
Qed.

Lemma leverage_ends_witness :
  (calculate_leverage_risk [borrow_zero; plain_tx; borrow_zero] == 800)%Q.
Proof.
  apply (leverage_ends [borrow_zero; plain_tx; borrow_zero]); reflexivity.
Defined.

(** ** Behavioral risk without normal transactions *)

(** Token transactions reach the first flag only: a wallet without normal
    transactions scores 0 or 200 (and 400 when it has no token transaction
    either). *)
Theorem behavioral_tokens_only (token_transactions : list Tx) :
  calculate_behavioral_risk [] token_transactions
  = if py_not token_transactions then 400
    else if adjacent_gaps_under 60 (sorted (valid_timestamps token_transactions)) >? 10
         then 200 else 0.
Proof.
  rewrite behavioral_formula. cbn [app].
  destruct (py_not token_transactions); [reflexivity|].
  unfold flags_triggered, flag_rapid, flag_failed, flag_large. cbn [app].
  rewrite count_nil. simpl.
  destruct (adjacent_gaps_under 60 _ >? 10); reflexivity.
Qed.

(** ** Concentration risk as a function of the set of tokens *)

Lemma first_escaping_none l :
  first_escaping l = None <-> Forall (fun tx => escaping tx = None) l.
Proof.
  induction l as [|tx l IH]; simpl.
  - split; [constructor | reflexivity].
  - destruct (escaping tx) eqn:E.
    + split; [discriminate|]. intros H. inversion H; subst. congruence.
    + rewrite IH. split; intros H; [constructor; assumption | now inversion H].
Qed.

Lemma concentration_ok_iff l r :
  calculate_concentration_risk l = Ok r
  <-> first_escaping l = None
      /\ r = (if py_not l then 600 else concentration_score (unique_count l)).
Proof.
  rewrite concentration_characterised. destruct l as [|tx l].
  - simpl. split; [intros [= <-]; split; reflexivity | intros [_ ->]; reflexivity].
  - cbn [py_not]. destruct (first_escaping (tx :: l)).
    + split; [discriminate | intros [H _]; discriminate H].
    + split; [intros [= <-]; split; reflexivity | intros [_ ->]; reflexivity].
Qed.

Lemma unique_count_incl l l' :
  incl (map (fun tx => PyStr.lower (contractAddress tx)) l)
       (map (fun tx => PyStr.lower (contractAddress tx)) l') ->
  unique_count l <= unique_count l'.
Proof.
  intros H. unfold unique_count, unique_addresses, len. apply inj_le.
  apply NoDup_incl_length; [apply NoDup_nodup|].
  intros x Hx. apply nodup_In. apply H. apply nodup_In in Hx. exact Hx.
Qed.

Lemma concentration_score_antitone n m :
  1 <= n <= m -> concentration_score m <= concentration_score n.
Proof.
  intros H. unfold concentration_score.
  destruct (n =? 0) eqn:N0; [lia|]. destruct (m =? 0) eqn:M0; [lia|].
  destruct (n =? 1) eqn:N1; destruct (m =? 1) eqn:M1;
    destruct (n <=? 3) eqn:N3; destruct (m <=? 3) eqn:M3; lia.
Qed.

(** More token transactions never raise the concentration score of a
    wallet that has some already: further tokens can only lower it. *)
Theorem concentration_more_tokens (l l' : list Tx) (r r' : Z) :
  l <> [] ->
  calculate_concentration_risk l = Ok r ->
  calculate_concentration_risk (l ++ l') = Ok r' ->
  r' <= r.
Proof.
  intros NE H H'. apply concentration_ok_iff in H. apply concentration_ok_iff in H'.
  destruct H as [_ ->]. destruct H' as [_ ->].
  rewrite (py_not_false _ NE).
  replace (py_not (l ++ l')) with false by (destruct l; [congruence | reflexivity]).
  apply concentration_score_antitone. split.
  - apply unique_count_pos, NE.
  - apply unique_count_incl. rewrite map_app. apply incl_appl, incl_refl.
Qed.

Lemma concentration_more_tokens_witness :
  calculate_concentration_risk [token_from "0xAB"] = Ok 700 /\
  calculate_concentration_risk ([token_from "0xAB"] ++ [token_from "0xCD"]) = Ok 400 /\
  400 <= 700.
Proof.
  split; [reflexivity|]. split; [reflexivity|].
  apply (concentration_more_tokens [token_from "0xAB"] [token_from "0xCD"] 700 400);
    [discriminate | reflexivity | reflexivity].
Defined.

(** The order of the token transactions and their repetitions do not
    matter: two lists made of the same records have the same score, when the
    calculator returns one. *)
Theorem concentration_same_records (l l' : list Tx) (r : Z) :
  (forall tx, In tx l <-> In tx l') ->
  calculate_concentration_risk l = Ok r ->
  calculate_concentration_risk l' = Ok r.
Proof.
  intros S H. apply concentration_ok_iff in H. apply concentration_ok_iff.
  destruct H as [E ->]. split.
  - apply first_escaping_none. apply first_escaping_none in E.
    rewrite Forall_forall in *. intros tx Hx. apply E, S, Hx.
  - assert (U : unique_count l' = unique_count l).
    { apply Z.le_antisymm; apply unique_count_incl; intros x Hx;
        apply in_map_iff in Hx; destruct Hx as [tx [<- Hx]];
        apply (in_map (fun tx => PyStr.lower (contractAddress tx))), S, Hx. }
    rewrite U. destruct l as [|a l], l' as [|a' l']; try reflexivity.
    + destruct (proj2 (S a') (or_introl eq_refl)).
    + destruct (proj1 (S a) (or_introl eq_refl)).
Qed.

Lemma concentration_same_records_witness :
  calculate_concentration_risk
    [token_from "0xCD"; token_from "0xAB"; token_from "0xCD"] = Ok 400.
Proof.
  apply (concentration_same_records
           [token_from "0xAB"; token_from "0xCD"]
           [token_from "0xCD"; token_from "0xAB"; token_from "0xCD"] 400).
  - intros tx. simpl. tauto.
  - reflexivity.
Defined.

(** * The transaction history provider *)

Lemma compound_loop address_of l : forall acc,
  fold_left (compound_step address_of) l acc
  = acc ++ filter (is_compound address_of) l.
Proof.
  induction l as [|tx l IH]; intros acc; simpl; [now rewrite app_nil_r|].
  rewrite IH. unfold compound_step, is_compound.
  destruct (matches_compound _); [now rewrite <- app_assoc | reflexivity].
Qed.

Lemma compound_records_eq (address_of : ApiTx -> string) (reply : api_reply) :
  compound_records address_of reply
  = match reply with
    | ApiData (Some status) _ (Some (ResultRecords l)) =>
        if String.eqb status "1"
        then filter (is_compound address_of) (firstn 500 l) else []
    | _ => []
    end.
Proof.
  destruct reply as [| |[status|] message [[l|]|]]; try reflexivity.
  simpl. destruct (String.eqb status "1"); [|reflexivity].
  apply (compound_loop address_of (firstn 500 l) []).
Qed.

Lemma compound_records_length (address_of : ApiTx -> string) (reply : api_reply) :
  (List.length (compound_records address_of reply) <= 500)%nat.
Proof.
  rewrite compound_records_eq.
  destruct reply as [| |[status|] message [[l|]|]]; try (simpl; lia).
  destruct (String.eqb status "1"); [|simpl; lia].
  pose proof (filter_length_le (is_compound address_of) (firstn 500 l)).
  pose proof (length_firstn 500 l) as F. rewrite F in *. lia.
Qed.

Lemma compound_records_compound (address_of : ApiTx -> string) (reply : api_reply) :
  Forall (fun tx => is_compound address_of tx = true)
         (compound_records address_of reply).
Proof.
  rewrite compound_records_eq.
  destruct reply as [| |[status|] message [[l|]|]]; try constructor.
  destruct (String.eqb status "1"); [|constructor].
  apply Forall_forall. intros tx H. apply filter_In in H. apply H.
Qed.

(** What a fetch returns.  From a reply with status '1' and a list of
    records: the Compound records among the first 500, in their order.
    From any other reply, and when the request raised: the empty list.  In
    every case at most 500 records, each of them a Compound record. *)
Theorem compound_records_filter (address_of : ApiTx -> string) (reply : api_reply) :
  compound_records address_of reply
  = match reply with
    | ApiData (Some status) _ (Some (ResultRecords l)) =>
        if String.eqb status "1"
        then filter (is_compound address_of) (firstn 500 l) else []
    | _ => []
    end
  /\ (List.length (compound_records address_of reply) <= 500)%nat
  /\ Forall (fun tx => is_compound address_of tx = true)
            (compound_records address_of reply).
Proof.
  split; [apply compound_records_eq|].
  split; [apply compound_records_length | apply compound_records_compound].
Qed.

Lemma prefix_refl s : String.prefix s s = true.
Proof.
  induction s as [|c s IH]; simpl; [reflexivity|].
  destruct (ascii_dec c c); [exact IH | congruence].
Qed.

Lemma contains_refl s : PyStr.contains s s = true.
Proof.
  destruct s as [|c s]; [reflexivity|].
  cbn [PyStr.contains]. rewrite prefix_refl. reflexivity.
Qed.

(** The match ignores the letter case of the address: an address that
    lower-cases to one of the contract addresses is a Compound address. *)
Theorem compound_address_any_case (address contract : string) :
  In contract contract_values ->
  PyStr.lower address = contract ->
  matches_compound (PyStr.lower address) = true.
Proof.
  intros H E. unfold matches_compound. apply existsb_exists.
  exists contract. split; [exact H|].
  assert (L : PyStr.lower contract = contract).
  { clear E. unfold contract_values, compound_contracts in H. simpl in H.
    repeat (destruct H as [<-|H]; [reflexivity|]). destruct H. }
  rewrite L, E. apply contains_refl.
Qed.

Lemma compound_address_any_case_witness :
  matches_compound (PyStr.lower ceth_upper) = true /\
  compound_records to (ApiData (Some "1"%string) (Some "OK"%string)
                               (Some (ResultRecords [to_ceth])))
  = [to_ceth].
Proof.
  split; [|reflexivity].
  apply (compound_address_any_case ceth_upper
           "0x4ddc2d193948926d02f9b1fe9e1daa0718270ed5");
    [simpl; tauto | reflexivity].
Defined.

(** ** The scorer on its own provider *)

Lemma unusable_no_records address_of reply :
  unusable reply -> compound_records address_of reply = [].
Proof.
  destruct reply as [| |[status|] message [[l|]|]]; try reflexivity.
  simpl. intros ->. reflexivity.
Qed.

Lemma scored_counts wallet transactions token_transactions sb :
  score_transactions transactions token_transactions = Ok sb ->
  tx_count (result_of wallet sb) = len transactions /\
  token_tx_count (result_of wallet sb) = len token_transactions.
Proof.
  unfold score_transactions.
  destruct (calculate_concentration_risk token_transactions); simpl; [|discriminate].
  destruct (final_score_of _ _ _ _ _); simpl; [|discriminate].
  intros [= <-]. split; reflexivity.
Qed.

Section Scorer.

Variable World : Type.
Variable request : string -> string -> option string -> World -> api_reply * World.
Variable api_key : option string.

Lemma scorer_outcomes wallets : forall w,
  Forall (fun wo => exists t k, snd wo = score_transactions t k
                                /\ len t <= 500 /\ len k <= 500)
         (outcomes (get_wallet_transactions request api_key)
                   (get_wallet_token_transactions request api_key) wallets w).
Proof.
  induction wallets as [|wallet rest IH]; intros w; simpl; [constructor|].
  unfold calculate_wallet_risk_score, get_wallet_transactions,
    get_wallet_token_transactions.
  destruct (request "txlist"%string wallet (request_key api_key) w) as [r1 w1].
  destruct (request "tokentx"%string wallet (request_key api_key) w1) as [r2 w2].
  constructor; [|apply IH].
  eexists _, _. split; [reflexivity|]. unfold len. rewrite !length_map.
  pose proof (compound_records_length to r1) as L1.
  pose proof (compound_records_length (fun tx => contractAddress (fields tx)) r2) as L2.
  lia.
Qed.

(** In a batch run on the scorer's own fetch methods no record counts more
    than 500 normal or 500 token transactions, whatever the service sends. *)
Theorem scorer_counts_bounded (wallets : list string) (w : World) :
  Forall (fun r => 0 <= tx_count r <= 500 /\ 0 <= token_tx_count r <= 500)
         (fst (scorer_score_wallet_list request api_key wallets w)).
Proof.
  unfold scorer_score_wallet_list, score_wallet_list.
  rewrite score_wallet_loop. simpl.
  pose proof (scorer_outcomes wallets w) as H.
  induction H as [|wo l [t [k [E [Lt Lk]]]] Hl IH]; simpl; constructor; [|exact IH].
  unfold record_of. rewrite E.
  destruct (score_transactions t k) as [sb|e] eqn:S.
  - destruct (scored_counts (fst wo) _ _ _ S) as [-> ->]. unfold len in *. lia.
  - simpl. lia.
Qed.

(** A wallet for which both requests fail, or come back unusable, is not
    given the degraded record: it is scored as a wallet without history,
    with composite 430. *)
Theorem provider_failure_scores_430 (wallet : string) (w : World) :
  unusable (fst (request "txlist"%string wallet (request_key api_key) w)) ->
  unusable (fst (request "tokentx"%string wallet (request_key api_key)
                         (snd (request "txlist"%string wallet (request_key api_key) w)))) ->
  fst (scorer_score_wallet_list request api_key [wallet] w) = [inactive_result wallet]
  /\ score (inactive_result wallet) = 430
  /\ inactive_result wallet <> default_result wallet.
Proof.
  intros U1 U2.
  split; [|split; [reflexivity | discriminate]].
  unfold scorer_score_wallet_list, score_wallet_list. cbn [fold_left].
  unfold score_wallet_step, calculate_wallet_risk_score, get_wallet_transactions,
    get_wallet_token_transactions.
  destruct (request "txlist"%string wallet (request_key api_key) w) as [r1 w1].
  simpl in U1, U2.
  destruct (request "tokentx"%string wallet (request_key api_key) w1) as [r2 w2].
  simpl in U2.
  rewrite (unusable_no_records _ _ U1), (unusable_no_records _ _ U2).
  reflexivity.
Qed.

End Scorer.

Lemma provider_failure_scores_430_witness :
  fst (scorer_score_wallet_list always_timeout None ["0xabc"%string] 0%nat)
  = [inactive_result "0xabc"].
Proof.
  apply (provider_failure_scores_430 nat always_timeout None "0xabc"%string 0%nat);
    exact I.
Defined.

(** ** The tokens of a fetched list *)

Lemma prefix_length k : forall s,
  String.prefix k s = true -> (String.length k <= String.length s)%nat.
Proof.
  induction k as [|c k IH]; intros s H; simpl; [lia|].
  destruct s as [|d s]; simpl in H; [discriminate H|].
  destruct (ascii_dec c d); [|discriminate H].
  apply IH in H. simpl. lia.
Qed.

Lemma prefix_same_length k : forall s,
  String.prefix k s = true -> String.length k = String.length s -> k = s.
Proof.
  induction k as [|c k IH]; intros s H L.
  - destruct s; [reflexivity | discriminate L].
  - destruct s as [|d s]; simpl in H; [discriminate H|].
    destruct (ascii_dec c d) as [->|]; [|discriminate H].
    simpl in L. f_equal. apply IH; [exact H | lia].
Qed.

Lemma contains_length k : forall s,
  PyStr.contains k s = true -> (String.length k <= String.length s)%nat.
Proof.
  induction s as [|d s IH]; intros H.
  - cbn [PyStr.contains] in H. apply prefix_length in H. exact H.
  - cbn [PyStr.contains] in H. apply orb_true_iff in H. destruct H as [H|H].
    + apply prefix_length, H.
    + apply IH in H. simpl. lia.
Qed.

Lemma contains_same_length k s :
  PyStr.contains k s = true -> String.length k = String.length s -> k = s.
Proof.
  destruct s as [|d s]; intros H L.
  - cbn [PyStr.contains] in H. apply prefix_same_length; assumption.
  - cbn [PyStr.contains] in H. apply orb_true_iff in H. destruct H as [H|H].
    + apply prefix_same_length; assumption.
    + apply contains_length in H. simpl in L. lia.
Qed.

Lemma lower_length s : String.length (PyStr.lower s) = String.length s.
Proof. induction s as [|c s IH]; simpl; [reflexivity | now rewrite IH]. Qed.

Lemma contract_values_length :
  Forall (fun c => String.length (PyStr.lower c) = 42%nat) contract_values.
Proof. repeat constructor. Qed.

(** A Compound address of the length of an address, 42 characters, is one
    of the eight contract addresses in some letter case. *)
Lemma compound_address_exact address :
  String.length address = 42%nat ->
  matches_compound (PyStr.lower address) = true ->
  In (PyStr.lower address) (map PyStr.lower contract_values).
Proof.
  intros L M. unfold matches_compound in M. apply existsb_exists in M.
  destruct M as [c [Hc M]]. apply in_map_iff. exists c. split; [|exact Hc].
  apply contains_same_length; [exact M|].
  rewrite (lower_length address), L.
  pose proof contract_values_length as F. rewrite Forall_forall in F.
  apply F, Hc.
Qed.

(** The token transactions that a fetch returns, when their contract
    addresses have the 42 characters of an address, are transfers of at most
    8 distinct tokens: the contracts of the scorer's table. *)
Theorem fetched_tokens_at_most_8 (reply : api_reply) :
  Forall (fun tx => String.length (contractAddress (fields tx)) = 42%nat)
         (compound_records (fun tx => contractAddress (fields tx)) reply) ->
  unique_count
    (map fields (compound_records (fun tx => contractAddress (fields tx)) reply))
  <= 8.
Proof.
  intros H.
  pose proof (compound_records_compound (fun tx => contractAddress (fields tx)) reply)
    as C.
  set (records := compound_records _ reply) in *.
  unfold unique_count, unique_addresses, len.
  change 8 with (Z.of_nat (List.length (map PyStr.lower contract_values))).
  apply inj_le, NoDup_incl_length; [apply NoDup_nodup|].
  intros x Hx. apply nodup_In in Hx. rewrite map_map in Hx.
  apply in_map_iff in Hx. destruct Hx as [tx [<- Hx]].
  rewrite Forall_forall in H, C.
  apply compound_address_exact; [apply H, Hx | apply (C _ Hx)].
Qed.

Lemma fetched_tokens_at_most_8_witness :
  unique_count
    (map fields
       (compound_records (fun tx => contractAddress (fields tx))
          (ApiData (Some "1"%string) None
                   (Some (ResultRecords [ceth_transfer; ceth_transfer])))))
  <= 8.
Proof.
  apply (fetched_tokens_at_most_8
           (ApiData (Some "1"%string) None
                    (Some (ResultRecords [ceth_transfer; ceth_transfer])))).
  simpl. repeat constructor.
Defined.

(** * The analysis script *)

(** ** The column of the addresses *)

(** The choice fails only on a file without columns.  Otherwise the chosen
    column is one of the file; it is [wallet_id] whenever the file has that
    column, and the first column of the file when the file has none of the
    four possible names. *)
Theorem choose_wallet_column_spec (columns : list string) :
  match choose_wallet_column columns with
  | None => columns = []
  | Some col =>
      In col columns /\
      (has_column columns "wallet_id" = true -> col = "wallet_id"%string) /\
      (existsb (has_column columns) possible_columns = false ->
       hd_error columns = Some col)
  end.
Proof.
  unfold choose_wallet_column.
  destruct (find (has_column columns) possible_columns) as [col|] eqn:F.
  - pose proof (find_some _ _ F) as [P H].
    split; [|split].
    + unfold has_column in H. apply existsb_exists in H.
      destruct H as [c [Hc E]]. apply String.eqb_eq in E. subst c. exact Hc.
    + intros W. unfold possible_columns in F. simpl in F. rewrite W in F.
      now injection F as <-.
    + intros N. assert (T : existsb (has_column columns) possible_columns = true)
        by (apply existsb_exists; exists col; split; assumption).
      rewrite N in T. discriminate T.
  - destruct columns as [|c columns]; [reflexivity|]. cbn [hd_error].
    split; [left; reflexivity|]. split; [|reflexivity].
    intros W. pose proof (find_none _ _ F "wallet_id"%string) as N.
    rewrite N in W; [discriminate W | left; reflexivity].
Qed.

(** ** The cleaning of the addresses *)

Lemma rstrip_idem s : rstrip (rstrip s) = rstrip s.
Proof.
  induction s as [|c s IH]; [reflexivity|].
  cbn [rstrip]. destruct (rstrip s) as [|d r] eqn:E.
  - destruct (is_space c) eqn:S; [reflexivity|]. simpl. rewrite S. reflexivity.
  - change (rstrip (String c (String d r)))
      with (match rstrip (String d r) with
            | EmptyString => if is_space c then EmptyString else String c EmptyString
            | String a b => String c (String a b)
            end).
    rewrite IH. reflexivity.
Qed.

Lemma lstrip_head s :
  lstrip s = EmptyString
  \/ exists c r, lstrip s = String c r /\ is_space c = false.
Proof.
  induction s as [|c s IH]; [left; reflexivity|].
  simpl. destruct (is_space c) eqn:S; [exact IH|].
  right. exists c, s. split; [reflexivity | exact S].
Qed.

Lemma rstrip_head c r :
  is_space c = false -> exists r', rstrip (String c r) = String c r'.
Proof.
  intros S. cbn [rstrip]. destruct (rstrip r); [rewrite S|]; eexists; reflexivity.
Qed.

Lemma strip_idem s : strip (strip s) = strip s.
Proof.
  unfold strip. destruct (lstrip_head s) as [E|[c [r [E S]]]]; rewrite E.
  - reflexivity.
  - destruct (rstrip_head c r S) as [r' R]. rewrite R.
    simpl lstrip. rewrite S, <- R. apply rstrip_idem.
Qed.

Lemma clean_fixed l :
  Forall (fun a => PyStr.truthy a = true /\ strip a = a) l -> clean_addresses l = l.
Proof.
  induction 1 as [|a l [T S] H IH]; [reflexivity|].
  unfold clean_addresses in *. simpl. rewrite S, T. simpl. rewrite S, IH. reflexivity.
Qed.

Lemma clean_addresses_clean l :
  Forall (fun a => PyStr.truthy a = true /\ strip a = a) (clean_addresses l).
Proof.
  unfold clean_addresses. apply Forall_forall. intros a H.
  apply in_map_iff in H. destruct H as [b [<- H]]. apply filter_In in H.
  split; [apply H | apply strip_idem].
Qed.

(** Every cleaned address is non-empty and has no white space at either
    end, blank entries are dropped, and cleaning a cleaned list changes
    nothing. *)
Theorem clean_addresses_spec (wallet_addresses : list string) :
  Forall (fun a => a <> EmptyString /\ strip a = a) (clean_addresses wallet_addresses)
  /\ (List.length (clean_addresses wallet_addresses) <= List.length wallet_addresses)%nat
  /\ clean_addresses (clean_addresses wallet_addresses) = clean_addresses wallet_addresses.
Proof.
  pose proof (clean_addresses_clean wallet_addresses) as C.
  split; [|split].
  - eapply Forall_impl; [|exact C]. intros a [T S]. split; [|exact S].
    intros ->. discriminate T.
  - unfold clean_addresses. rewrite length_map. apply filter_length_le.
  - apply clean_fixed, C.
Qed.

(** ** The API key *)

(** A configured key that is neither empty nor the text 'YOUR_API_KEY_HERE'
    is the key used: the environment variable and the prompt are not
    consulted.  The constant of the script, 'YOUR_API_KEY', is such a key. *)
Theorem configured_key_wins (configured : string) (env : option string) (typed : string) :
  configured <> EmptyString ->
  configured <> "YOUR_API_KEY_HERE"%string ->
  resolve_api_key configured env typed = Some configured.
Proof.
  intros NE NP. unfold resolve_api_key, key_missing.
  destruct configured as [|c s]; [congruence|]. cbn [PyStr.truthy negb orb].
  apply String.eqb_neq in NP. rewrite NP. reflexivity.
Qed.

Lemma configured_key_wins_witness :
  resolve_api_key ETHERSCAN_API_KEY (Some "0123456789ABCDEF"%string) "typed"
  = Some "YOUR_API_KEY"%string.
Proof.
  apply (configured_key_wins ETHERSCAN_API_KEY (Some "0123456789ABCDEF"%string) "typed");
    discriminate.
Defined.

(** The script never goes on with an empty key. *)
Theorem resolved_key_not_empty (configured : string) (env : option string)
                               (typed key : string) :
  resolve_api_key configured env typed = Some key -> key <> EmptyString.
Proof.
  unfold resolve_api_key.
  set (k1 := if key_missing (Some configured) || String.eqb configured "YOUR_API_KEY_HERE"
             then env else Some configured).
  set (k2 := if key_missing k1 then Some (strip typed) else k1).
  destruct (key_missing k2) eqn:M; [discriminate|].
  intros ->. intros ->. discriminate M.
Qed.

Lemma resolved_key_not_empty_witness :
  resolve_api_key "" (Some "from-env"%string) "" = Some "from-env"%string /\
  "from-env"%string <> EmptyString.
Proof.
  split; [reflexivity|].
  apply (resolved_key_not_empty "" (Some "from-env"%string) "" "from-env").
  reflexivity.
Defined.

(** ** The risk distribution *)

Lemma mask_sum_count (mask : Z -> bool) l : forall c : Z,
  fold_left (fun n s => if mask s then n + 1 else n) l c = c + count mask l.
Proof.
  induction l as [|s l IH]; intros c; simpl.
  - rewrite count_nil. lia.
  - rewrite IH, count_cons. destruct (mask s); lia.
Qed.

(** The five classes partition the scores: every score, whatever its
    value, is counted in exactly one class. *)
Theorem risk_distribution_partition (scores : list Z) :
  let d := risk_distribution scores in
  low_risk d + med_low_risk d + medium_risk d + high_risk d + critical_risk d
  = len scores
  /\ 0 <= low_risk d /\ 0 <= med_low_risk d /\ 0 <= medium_risk d
  /\ 0 <= high_risk d /\ 0 <= critical_risk d.
Proof.
  unfold risk_distribution, mask_sum. cbn [low_risk med_low_risk medium_risk high_risk critical_risk].
  rewrite !mask_sum_count. split; [|repeat split; cbn [Z.add]; apply count_nonneg].
  induction scores as [|s l IH]; [reflexivity|].
  rewrite !count_cons. unfold len in *. cbn [List.length].
  rewrite Nat2Z.inj_succ.
  destruct (s <=? 200) eqn:A; destruct (s >? 200) eqn:A';
    destruct (s <=? 400) eqn:B; destruct (s >? 400) eqn:B';
    destruct (s <=? 600) eqn:C; destruct (s >? 600) eqn:C';
    destruct (s <=? 800) eqn:D; destruct (s >? 800) eqn:D';
    cbn [andb]; lia.
Qed.

(** ** The deliverable of a batch *)

Lemma has_duplicates_NoDup l : has_duplicates l = false <-> NoDup l.
Proof.
  induction l as [|x l IH]; simpl.
  - split; [constructor | reflexivity].
  - rewrite orb_false_iff, IH. split.
    + intros [E H]. constructor; [|exact H].
      intros I. assert (T : existsb (String.eqb x) l = true)
        by (apply existsb_exists; exists x; split; [exact I | apply String.eqb_refl]).
      rewrite E in T. discriminate T.
    + intros H. inversion H as [|? ? N D]; subst. split; [|exact D].
      destruct (existsb (String.eqb x) l) eqn:E; [|reflexivity].
      apply existsb_exists in E. destruct E as [y [I E]].
      apply String.eqb_eq in E. subst y. contradiction.
Qed.

Section Deliverable.

Variable World : Type.
Variable get_transactions : string -> World -> list Tx * World.
Variable get_token_transactions : string -> World -> list Tx * World.

Lemma batch_wallet_ids wallets w :
  map wallet_id (fst (score_wallet_list get_transactions get_token_transactions wallets w))
  = wallets.
Proof.
  unfold score_wallet_list. rewrite score_wallet_loop. simpl.
  rewrite map_map.
  rewrite <- (outcomes_wallets _ get_transactions get_token_transactions wallets w) at 2.
  apply map_ext. intros wo. apply record_of_wallet.
Qed.

Lemma batch_scores wallets w :
  forallb (fun s => (s >=? 0) && (s <=? 1000))
          (map score
               (fst (score_wallet_list get_transactions get_token_transactions wallets w)))
  = true.
Proof.
  unfold score_wallet_list. rewrite score_wallet_loop. simpl.
  pose proof (outcomes_scored _ get_transactions get_token_transactions wallets w) as H.
  induction H as [|wo l [t [k E]] Hl IH]; [reflexivity|].
  cbn [map forallb]. rewrite IH, andb_true_r.
  unfold record_of. rewrite E.
  destruct (score_transactions t k) as [sb|e] eqn:S.
  - destruct (scored_result_in_range (fst wo) _ _ _ S) as [R _].
    apply andb_true_iff. split; [apply Z.geb_le | apply Z.leb_le]; lia.
  - reflexivity.
Qed.

(** The deliverable of a batch is valid exactly when no wallet address
    occurs twice in the input: its scores are always in range, and the
    batch keeps repeated addresses.  For the empty batch there is no
    deliverable: the selection of the two columns raises. *)
Theorem deliverable_valid_iff (wallets : list string) (w : World) :
  match
    deliverable (fst (score_wallet_list get_transactions get_token_transactions wallets w))
  with
  | Some df =>
      wallets <> [] /\ frame_wallet_id df = wallets
      /\ (validate_deliverable df = true <-> NoDup wallets)
  | None => wallets = []
  end.
Proof.
  pose proof (batch_wallet_ids wallets w) as I.
  pose proof (batch_scores wallets w) as R.
  destruct (fst (score_wallet_list get_transactions get_token_transactions wallets w))
    as [|r results] eqn:E.
  - simpl in I. simpl. congruence.
  - cbn [deliverable]. split; [destruct wallets; [discriminate I | discriminate]|].
    split; [exact I|].
    unfold validate_deliverable.
    cbn [frame_columns frame_score frame_wallet_id frame_score_numeric].
    rewrite R, I. cbn [negb].
    replace (forallb (has_column ["wallet_id"; "score"]%string)
                     ["wallet_id"; "score"]%string) with true by reflexivity.
    cbn [negb]. rewrite <- has_duplicates_NoDup.
    destruct (has_duplicates wallets); split; congruence.
Qed.

End Deliverable.

(** ** Behavioral risk and the order of the transactions *)

Lemma insert_sorted_min x l :
  Forall (fun y => x <= y) l -> insert_sorted x l = x :: l.
Proof.
  destruct l as [|y l]; intros H; [reflexivity|].
  inversion H; subst. simpl.
  replace (x <=? y) with true by (symmetry; apply Z.leb_le; assumption).
  reflexivity.
Qed.

Lemma insert_sorted_comm x y l :
  insert_sorted x (insert_sorted y l) = insert_sorted y (insert_sorted x l).
Proof.
  induction l as [|z l IH].
  - simpl. destruct (x <=? y) eqn:A, (y <=? x) eqn:B; try reflexivity;
      rewrite ?Z.leb_le, ?Z.leb_gt in *; try lia.
    assert (x = y) by lia. subst. reflexivity.
  - destruct (x <=? z) eqn:X, (y <=? z) eqn:Y, (x <=? y) eqn:A, (y <=? x) eqn:B;
      simpl; rewrite ?X, ?Y; simpl; rewrite ?X, ?Y, ?A, ?B;
      try reflexivity;
      try (f_equal; apply IH);
      rewrite ?Z.leb_le, ?Z.leb_gt in *; try lia;
      try (assert (x = y) by lia; subst; reflexivity).
Qed.

(** The sorted list does not depend on the order of the input. *)
Lemma sorted_permutation l l' :
  Permutation.Permutation l l' -> sorted l = sorted l'.
Proof.
  induction 1 as [|x l l' P IH|x y l|l l' l'' P IH P' IH']; simpl.
  - reflexivity.
  - now rewrite IH.
  - apply insert_sorted_comm.
  - congruence.
Qed.

Lemma count_permutation {A} (p : A -> bool) l l' :
  Permutation.Permutation l l' -> count p l = count p l'.
Proof.
  induction 1 as [|x l l' P IH|x y l|l l' l'' P IH P' IH'].
  - reflexivity.
  - rewrite !count_cons, IH. reflexivity.
  - rewrite !count_cons. lia.
  - congruence.
Qed.

Lemma valid_timestamps_permutation l l' :
  Permutation.Permutation l l' ->
  Permutation.Permutation (valid_timestamps l) (valid_timestamps l').
Proof. apply Permutation.Permutation_flat_map. Qed.

(** The behavioral score does not depend on the order in which the
    provider lists the transactions. *)
Theorem behavioral_permutation (t t' k k' : list Tx) :
  Permutation.Permutation t t' -> Permutation.Permutation k k' ->
  calculate_behavioral_risk t k = calculate_behavioral_risk t' k'.
Proof.
  intros Pt Pk. rewrite !behavioral_formula.
  assert (Pa : Permutation.Permutation (t ++ k) (t' ++ k'))
    by (apply Permutation.Permutation_app; assumption).
  replace (py_not (t' ++ k')) with (py_not (t ++ k)).
  - destruct (py_not (t ++ k)); [reflexivity|].
    unfold flags_triggered, flag_rapid, flag_failed, flag_large, len.
    rewrite (sorted_permutation _ _ (valid_timestamps_permutation _ _ Pa)).
    rewrite (count_permutation is_failed _ _ Pt), (count_permutation is_large _ _ Pt).
    rewrite (Permutation.Permutation_length Pt). reflexivity.
  - destruct (t ++ k), (t' ++ k'); try reflexivity.
    + apply Permutation.Permutation_nil in Pa. discriminate Pa.
    + apply Permutation.Permutation_sym, Permutation.Permutation_nil in Pa.
      discriminate Pa.
Qed.

Lemma behavioral_permutation_witness :
  calculate_behavioral_risk (rev all_flags_input) [plain_tx; borrow_zero]
  = calculate_behavioral_risk all_flags_input [borrow_zero; plain_tx].
Proof.
  apply (behavioral_permutation (rev all_flags_input) all_flags_input
                                [plain_tx; borrow_zero] [borrow_zero; plain_tx]).
  - apply Permutation.Permutation_sym, Permutation.Permutation_rev.
  - apply Permutation.perm_swap.
Defined.

(** ** The rounding of the breakdown *)






